(** * xlib weak pointers: a shallow embedding of [base/weak_ptr.h] and
    [base/uintptr_cast.h]

    The C++ objects that the header shares between a factory and its handles
    (the threading checker, the flag, the subject itself) live behind
    [std::shared_ptr] control blocks.  The embedding keeps one heap per kind of
    control block, each block carrying its [use_count], and threads the heaps
    through every operation in a state-and-fault monad.  A [std::shared_ptr] or
    [std::weak_ptr] is the index of its control block, or [None] when null;
    the weak pointer of a handle to its subject also has the pointer it
    stores.  Where the subobjects of base classes lie is a parameter, the
    [Layout], over which every definition and theorem is generic.

    The execution model is sequential: the [std::mutex] inside the checker only
    serialises the body of its two methods and is not represented. *)

From stdpp Require Import base numbers list option.

Open Scope Z_scope.

(** ** Addresses *)

(** [std::uintptr_t]; [nullptr] reinterpreted is [0]. *)
Definition uintptr_t := Z.
Definition nullptr : uintptr_t := 0.

(** ** Thread identities *)

(** [std::thread::id]: the default-constructed value stands for no thread; every
    running thread has an identity different from it. *)
Inductive thread_id :=
| no_thread
| running (n : nat).

#[global] Instance thread_id_eq_dec : EqDecision thread_id.
Proof. solve_decision. Defined.

(** [std::this_thread::get_id()] evaluated on thread [self]. *)
Definition this_thread_get_id (self : nat) : thread_id := running self.

(** ** internal::ThreadingChecker *)

(** The template argument of [ThreadingChecker]: [void] is the permissive
    variant, [std::mutex] the checking one. *)
Inductive Threading :=
| Threading_void
| Threading_mutex.

(** A checker object; the checking variant holds [valid_thread_id_]. *)
Inductive ThreadingChecker :=
| ThreadingChecker_void
| ThreadingChecker_mutex (valid_thread_id_ : thread_id).

(** The default constructor.  The member initialiser of [valid_thread_id_] is
    [std::this_thread::get_id()]. *)
Definition ThreadingChecker_new (k : Threading) (self : nat) : ThreadingChecker :=
  match k with
  | Threading_void => ThreadingChecker_void
  | Threading_mutex => ThreadingChecker_mutex (this_thread_get_id self)
  end.

(** [CalledOnValidSequence]: the answer and the checker after the call (the
    method is [const] but writes the [mutable] member through a cast). *)
Definition CalledOnValidSequence (self : nat) (c : ThreadingChecker)
  : bool * ThreadingChecker :=
  match c with
  | ThreadingChecker_void => (true, c)
  | ThreadingChecker_mutex valid_thread_id_ =>
      if decide (valid_thread_id_ = no_thread)
      then (true, ThreadingChecker_mutex (this_thread_get_id self))
      else (bool_decide (valid_thread_id_ = this_thread_get_id self), c)
  end.

(** [DetachFromSequence]. *)
Definition DetachFromSequence (c : ThreadingChecker) : ThreadingChecker :=
  match c with
  | ThreadingChecker_void => c
  | ThreadingChecker_mutex _ => ThreadingChecker_mutex no_thread
  end.

(** The two states of the checking variant, as the specification names them. *)
Inductive affinity :=
| Unbound
| Bound (sequence : nat).

Definition affinity_of (c : ThreadingChecker) : option affinity :=
  match c with
  | ThreadingChecker_void => None
  | ThreadingChecker_mutex no_thread => Some Unbound
  | ThreadingChecker_mutex (running n) => Some (Bound n)
  end.

(** ** Faults and the state monad *)

Inductive fault :=
| AssertionFailed      (* [assert] fired: the process aborts *)
| UndefinedBehaviour   (* the C++ standard gives the execution no meaning *)
| Unrealisable.        (* no program and no environment produces this: an
                          allocation at an address in use, a template
                          instance that does not compile *)

Inductive Result (A : Type) :=
| Ok (a : A)
| Fault (f : fault).
Arguments Ok {A} a.
Arguments Fault {A} f.

(** ** Class types *)

(** A class is named by its single-inheritance chain, root first: [[1]] is a
    root class, [[1; 2]] a class derived from it. *)
Definition class := list nat.

(** Where an object keeps the subobjects of its bases is fixed by the
    compiler.  Under single, non-virtual inheritance every layout is given by
    one number per class, [depth C]: in an object of class [D], the subobject
    of a base [B] begins [depth D - depth B] bytes after the object.  Nothing
    is assumed of the numbers. *)
Class Layout := depth : class → Z.

(** The layout in which every base begins where the object begins. *)
#[global] Instance flat : Layout := λ _, 0.

(** A layout in which each derivation puts 8 bytes in front of the base, as a
    derived class does that adds a virtual table pointer. *)
Definition stacked : Layout := λ C, 8 * Z.of_nat (length C - 1).

(** [std::is_same<A, B>::value] *)
Definition is_same (A B : class) : bool := bool_decide (A = B).

(** [std::is_base_of<B, D>::value] *)
Definition is_base_of (B D : class) : bool := bool_decide (B `prefix_of` D).

(** A static type argument of the templates: [void] or a class. *)
Inductive ctype :=
| Void
| Class (c : class).

(** ** Control blocks *)

Record shared_block (A : Type) := SharedBlock {
  use_count : nat;
  pointee : A;
}.
Arguments SharedBlock {A} use_count pointee.
Arguments use_count {A} s.
Arguments pointee {A} s.

Abbreviation heap A := (list (shared_block A)).

Definition incr {A} (b : shared_block A) : shared_block A :=
  SharedBlock (S (use_count b)) (pointee b).
Definition decr {A} (b : shared_block A) : shared_block A :=
  SharedBlock (pred (use_count b)) (pointee b).
Definition store {A} (x : A) (b : shared_block A) : shared_block A :=
  SharedBlock (use_count b) x.

(** The block a pointer designates while the object is alive. *)
Definition live_block {A} (p : option nat) (h : heap A) : option (shared_block A) :=
  match p with
  | None => None
  | Some i =>
      match h !! i with
      | Some b => if decide (use_count b = 0%nat) then None else Some b
      | None => None
      end
  end.

(** [std::weak_ptr::expired] *)
Definition expired {A} (p : option nat) (h : heap A) : bool :=
  match live_block p h with
  | Some _ => false
  | None => true
  end.

(** [std::make_shared]: a new control block with one owner. *)
Definition make_shared {A} (x : A) (h : heap A) : nat * heap A :=
  (length h, h ++ [SharedBlock 1 x]).

(** [std::weak_ptr::lock]: a new owner when the object is alive, null otherwise. *)
Definition lock {A} (p : option nat) (h : heap A) : option nat * heap A :=
  match live_block p h, p with
  | Some _, Some i => (Some i, alter incr i h)
  | _, _ => (None, h)
  end.

(** Copy constructor of a [std::shared_ptr]. *)
Definition retain {A} (p : option nat) (h : heap A) : heap A :=
  match p with
  | Some i => alter incr i h
  | None => h
  end.

(** Destructor (or [reset]) of a [std::shared_ptr]. *)
Definition release {A} (p : option nat) (h : heap A) : heap A :=
  match p with
  | Some i => alter decr i h
  | None => h
  end.

(** ** The objects of the header *)

(** A subject: an instance of a class deriving from
    [std::enable_shared_from_this], with the address at which it begins and
    its dynamic type; the subobjects of its bases begin at the distances
    that the layout gives. *)
Record Object := {
  obj_addr : uintptr_t;
  obj_class : class;
}.

Module WeakPtr.
(** [template <typename T> class WeakPtr]; the members in declaration order. *)
Record t := mk {
  ref_ : option nat;               (* std::shared_ptr<Flag> *)
  threading_checker_ : option nat; (* std::weak_ptr<ThreadingChecker<void>> *)
  ptr_ : option nat;               (* std::weak_ptr<T>: its control block *)
  ptr_stored_ : uintptr_t;         (* and the T* it stores; null if empty *)
  raw_ptr_ : uintptr_t;
}.

(** [WeakPtr() = default] *)
Definition null : t := mk None None None nullptr nullptr.

(** [operator std::uintptr_t() const] *)
Definition to_uintptr (h : t) : uintptr_t := raw_ptr_ h.
End WeakPtr.

Module WeakPtrFactory.
(** [template <class T, typename Threading> class WeakPtrFactory] *)
Record t := mk {
  T : class;
  Threading_ : Threading;
  threading_ : nat;                (* std::shared_ptr<Threading>, never null *)
  ref_ : option nat;               (* Flag::flag_type *)
  ptr_ : uintptr_t;                (* T* *)
}.
End WeakPtrFactory.

(** [std::hash<WeakPtr<void>>::operator()] *)
Definition hash (obj : WeakPtr.t) : uintptr_t := WeakPtr.to_uintptr obj.

(** The memory of the program: the three heaps of control blocks and the
    factories (a destroyed factory leaves [None] in its slot). *)
Record World := {
  checkers : heap ThreadingChecker;
  flags : heap unit;
  subjects : heap Object;
  factories : list (option WeakPtrFactory.t);
}.

Definition empty_world : World :=
  {| checkers := []; flags := []; subjects := []; factories := [] |}.

Definition with_checkers (h : heap ThreadingChecker) (w : World) : World :=
  {| checkers := h; flags := flags w; subjects := subjects w;
     factories := factories w |}.
Definition with_flags (h : heap unit) (w : World) : World :=
  {| checkers := checkers w; flags := h; subjects := subjects w;
     factories := factories w |}.
Definition with_subjects (h : heap Object) (w : World) : World :=
  {| checkers := checkers w; flags := flags w; subjects := h;
     factories := factories w |}.
Definition with_factories (l : list (option WeakPtrFactory.t)) (w : World) : World :=
  {| checkers := checkers w; flags := flags w; subjects := subjects w;
     factories := l |}.

(** Computations over the world that may stop on a fault. *)
Definition M (A : Type) : Type := World → Result (A * World).

Definition ret {A} (a : A) : M A := λ w, Ok (a, w).
Definition bind {A B} (m : M A) (f : A → M B) : M B := λ w,
  match m w with
  | Ok (a, w') => f a w'
  | Fault e => Fault e
  end.

Declare Scope M_scope.
Delimit Scope M_scope with M.
Notation "x ← y ; z" := (bind y (λ x, z))
  (at level 20, y at level 100, z at level 200, only parsing) : M_scope.
Notation "x ;; z" := (bind x (λ _, z))
  (at level 100, z at level 200, only parsing, right associativity) : M_scope.
Open Scope M_scope.

Definition fail {A} (e : fault) : M A := λ _, Fault e.
Definition gets {A} (f : World → A) : M A := λ w, Ok (f w, w).
Definition modify (f : World → World) : M unit := λ w, Ok (tt, f w).

(** *** Pointer operations on each heap *)

Definition lock_checker (p : option nat) : M (option nat) := λ w,
  let '(sp, h) := lock p (checkers w) in Ok (sp, with_checkers h w).
Definition retain_checker (p : option nat) : M unit :=
  modify (λ w, with_checkers (retain p (checkers w)) w).
Definition release_checker (p : option nat) : M unit :=
  modify (λ w, with_checkers (release p (checkers w)) w).
Definition make_shared_checker (c : ThreadingChecker) : M nat := λ w,
  let '(i, h) := make_shared c (checkers w) in Ok (i, with_checkers h w).

Definition lock_flag (p : option nat) : M (option nat) := λ w,
  let '(sp, h) := lock p (flags w) in Ok (sp, with_flags h w).
Definition retain_flag (p : option nat) : M unit :=
  modify (λ w, with_flags (retain p (flags w)) w).
Definition release_flag (p : option nat) : M unit :=
  modify (λ w, with_flags (release p (flags w)) w).
Definition make_shared_flag : M (option nat) := λ w,
  let '(i, h) := make_shared tt (flags w) in Ok (Some i, with_flags h w).
(** [use_count()] of a non-null flag pointer *)
Definition flag_use_count (p : option nat) : M nat :=
  gets (λ w, match p with
             | Some i => from_option use_count 0%nat (flags w !! i)
             | None => 0%nat
             end).

Definition lock_subject (p : option nat) : M (option nat) := λ w,
  let '(sp, h) := lock p (subjects w) in Ok (sp, with_subjects h w).
Definition retain_subject (p : option nat) : M unit :=
  modify (λ w, with_subjects (retain p (subjects w)) w).
Definition release_subject (p : option nat) : M unit :=
  modify (λ w, with_subjects (release p (subjects w)) w).
(** [std::shared_ptr<T>::get] reinterpreted as an address *)
Definition subject_get (p : option nat) : M uintptr_t :=
  gets (λ w, match p with
             | Some i => from_option (λ b, obj_addr (pointee b)) nullptr
                           (subjects w !! i)
             | None => nullptr
             end).

(** [p.lock().get()] for a weak pointer to a subject, with control block [p]
    and stored pointer [stored]: the owner obtained, if any, hands out the
    stored pointer and dies at the end of the expression. *)
Definition subject_lock_get (p : option nat) (stored : uintptr_t) : M uintptr_t :=
  sp ← lock_subject p;
  let a := if sp is Some _ then stored else nullptr in
  release_subject sp;;
  ret a.

(** The live object that begins at an address, with the index of its control
    block. *)
Definition object_at (a : uintptr_t) (w : World)
  : option (nat * shared_block Object) :=
  list_find (λ b, use_count b ≠ 0%nat ∧ obj_addr (pointee b) = a) (subjects w).

(** [t->shared_from_this()]: a new owner of the object at [t].  Calling it
    through a null or dangling pointer has no defined meaning. *)
Definition shared_from_this (t : uintptr_t) : M (option nat) := λ w,
  match object_at t w with
  | Some (i, _) => Ok (Some i, with_subjects (retain (Some i) (subjects w)) w)
  | None => Fault UndefinedBehaviour
  end.

(** [checker->CalledOnValidSequence()] through an owning pointer. *)
Definition checker_CalledOnValidSequence (c : nat) (self : nat) : M bool := λ w,
  match checkers w !! c with
  | Some b =>
      let '(ok, c') := CalledOnValidSequence self (pointee b) in
      Ok (ok, with_checkers (alter (store c') c (checkers w)) w)
  | None => Fault UndefinedBehaviour
  end.

Section Casts.
Context {L : Layout}.

(** The distance from the start of an object of class [D] to the subobject of
    its base [B]. *)
Definition offset (D B : class) : Z := depth D - depth B.

(** The implicit conversion of a [From*] to the pointer to its base [To]: a
    null pointer stays null, any other is moved to the subobject. *)
Definition upcast (From To : class) (p : uintptr_t) : uintptr_t :=
  if decide (p = nullptr) then nullptr else p + offset From To.

(** The live object of which [from] designates the [From] subobject, with the
    index of its control block. *)
Definition subobject_at (From : class) (from : uintptr_t) (w : World)
  : option (nat * shared_block Object) :=
  list_find (λ b, use_count b ≠ 0%nat
                  ∧ From `prefix_of` obj_class (pointee b)
                  ∧ obj_addr (pointee b)
                    + offset (obj_class (pointee b)) From = from)
            (subjects w).

(** [dynamic_cast<To*>(from)] for [from : From*].  A null pointer converts to
    null.  A conversion to a base class is the static one.  Any other
    conversion consults the object of which [from] designates the [From]
    subobject, which must be alive: the result is the address of its [To]
    subobject if it has one, and null otherwise. *)
Definition dynamic_cast (From To : class) (from : uintptr_t) : M uintptr_t := λ w,
  if decide (from = nullptr) then Ok (nullptr, w)
  else if is_base_of To From then Ok (upcast From To from, w)
  else match subobject_at From from w with
       | Some (_, b) =>
           Ok (if is_base_of To (obj_class (pointee b))
               then obj_addr (pointee b) + offset (obj_class (pointee b)) To
               else nullptr, w)
       | None => Fault UndefinedBehaviour
       end.

(** ** base/uintptr_cast.h *)

(** [uintptr_cast<From, To>(const std::uintptr_t&)]: the four overloads,
    selected by which of the two types is [void]. *)
Definition uintptr_cast (From To : ctype) (ptr : uintptr_t) : M uintptr_t :=
  match From, To with
  | Void, Void => ret ptr
  | Class F, Class T =>
      if is_same F T then ret ptr
      else dynamic_cast F T ptr
  | Void, Class _ => ret ptr
  | Class _, Void => ret ptr
  end.

End Casts.

Section Build.
Context {L : Layout}.

(** The two preprocessor symbols the header depends on: [DEBUG] chooses the
    default [Threading] and guards a null test; [NDEBUG] removes every
    [assert], together with the evaluation of its argument. *)
Variables (DEBUG NDEBUG : bool).

(** [assert(cond)] *)
Definition assert_ (cond : M bool) : M unit :=
  if NDEBUG then ret tt
  else b ← cond; if b then ret tt else fail AssertionFailed.

(** The default template argument of [WeakPtrFactory]. *)
Definition default_Threading : Threading :=
  if DEBUG then Threading_mutex else Threading_void.

(** ** WeakPtr<T> *)

(** [virtual T *get() const] of a handle with a class type. *)
Definition WeakPtr_get (h : WeakPtr.t) (self : nat) : M uintptr_t :=
  e ← gets (λ w, expired (WeakPtr.threading_checker_ h) (checkers w));
  if e : bool then ret nullptr
  else
    checker ← lock_checker (WeakPtr.threading_checker_ h);
    match checker with
    | None => ret nullptr
    | Some c =>
        assert_ (checker_CalledOnValidSequence c self);;
        a ← subject_lock_get (WeakPtr.ptr_ h) (WeakPtr.ptr_stored_ h);
        release_checker checker;;
        ret a
    end.

(** [WeakPtr<void>::get() const override] *)
Definition WeakPtr_void_get (h : WeakPtr.t) (self : nat) : M uintptr_t :=
  e ← gets (λ w, expired (WeakPtr.threading_checker_ h) (checkers w));
  if e : bool then ret nullptr
  else
    flag ← lock_checker (WeakPtr.threading_checker_ h);
    match flag with
    | None => ret nullptr
    | Some c =>
        assert_ (checker_CalledOnValidSequence c self);;
        release_checker flag;;
        ret (WeakPtr.raw_ptr_ h)
    end.


(** [bool operator==(const WeakPtr<T> &other) const] *)
Definition WeakPtr_eq (this other : WeakPtr.t) (self : nat) : M bool :=
  a ← WeakPtr_get this self;
  b ← WeakPtr_get other self;
  ret (bool_decide (a = b)).

(** The implicit copy constructor: one more owner of the flag. *)
Definition WeakPtr_copy (other : WeakPtr.t) : M WeakPtr.t :=
  retain_flag (WeakPtr.ref_ other);;
  ret other.

(** The destructor: the flag loses an owner; the two weak pointers only give
    up their weak counts, which the heaps do not record. *)
Definition WeakPtr_destroy (h : WeakPtr.t) : M unit :=
  release_flag (WeakPtr.ref_ h).

(** [void reset()], returning the handle after the call. *)
Definition WeakPtr_reset (h : WeakPtr.t) : M WeakPtr.t :=
  release_flag (WeakPtr.ref_ h);;
  ret WeakPtr.null.

(** [template <typename U> WeakPtr(const WeakPtr<U> &other)] for class types
    [U] and [T].  The initialiser [ptr_(other.ptr_)] converts a
    [std::weak_ptr<U>] to a [std::weak_ptr<T>], which the library defines
    only where a [U*] converts to a [T*]: no program contains the constructor
    at another pair of classes.  The members are initialised in the order of
    their declaration; the stored pointer is converted as pointers are. *)
Definition WeakPtr_convert (U T : class) (other : WeakPtr.t) : M WeakPtr.t :=
  (if is_base_of T U then ret tt else fail Unrealisable);;
  retain_flag (WeakPtr.ref_ other);;
  raw ← uintptr_cast (Class U) (Class T) (WeakPtr.raw_ptr_ other);
  ret (WeakPtr.mk (WeakPtr.ref_ other) (WeakPtr.threading_checker_ other)
          (WeakPtr.ptr_ other) (upcast U T (WeakPtr.ptr_stored_ other)) raw).

(** Modelled from the spec: the construction of a [WeakPtr<void>] from a
    [WeakPtr<T>], the [erase_type()] of the specification.  The header calls
    it, in the two mixed overloads of [equal], and declares no such
    constructor in [WeakPtr<void>].  By the specification a handle carries
    its token reference, its subject reference, its share of the flag and its
    raw address, and erasure is address reinterpretation only: the erased
    handle has the members of the typed one, with one more owner of the flag
    as for every copy, and the raw address as the class-to-void overload of
    [uintptr_cast] returns it. *)
Definition WeakPtr_erase (T : class) (other : WeakPtr.t) : M WeakPtr.t :=
  retain_flag (WeakPtr.ref_ other);;
  raw ← uintptr_cast (Class T) Void (WeakPtr.raw_ptr_ other);
  ret (WeakPtr.mk (WeakPtr.ref_ other) (WeakPtr.threading_checker_ other)
          (WeakPtr.ptr_ other) (WeakPtr.ptr_stored_ other) raw).

(** [WeakPtr(const WeakPtr<void> &other)] of [WeakPtr<T>]. *)
Definition WeakPtr_from_void (T : class) (other : WeakPtr.t) : M WeakPtr.t :=
  retain_flag (WeakPtr.ref_ other);;
  raw ← uintptr_cast Void (Class T) (WeakPtr.raw_ptr_ other);
  let h := WeakPtr.mk (WeakPtr.ref_ other) (WeakPtr.threading_checker_ other)
             (WeakPtr.ptr_ other) (WeakPtr.ptr_stored_ other) raw in
  if decide (raw = nullptr) then WeakPtr_reset h else ret h.

(** [bool equal(const WeakPtr<U> &other)] of [WeakPtr<T>], for class types [T]
    and [U].  The nested calls of [equal] are between handles of one type and
    take the first branch, which is [WeakPtr_eq]; the temporaries die at the
    end of the [return] statement. *)
Definition WeakPtr_equal (T U : class) (this other : WeakPtr.t) (self : nat)
  : M bool :=
  if is_same T U then WeakPtr_eq this other self
  else if is_base_of U T then
    tmp ← WeakPtr_convert T U this;        (* a WeakPtr<U> built from this *)
    r ← WeakPtr_eq other tmp self;         (* other.equal(...) *)
    WeakPtr_destroy tmp;;
    ret r
  else if is_base_of T U then
    tmp ← WeakPtr_copy this;               (* a WeakPtr<T> built from this *)
    r ← WeakPtr_eq this tmp self;          (* equal(...) *)
    WeakPtr_destroy tmp;;
    ret r
  else ret false.

(** The private constructor
    [WeakPtr(std::shared_ptr<T> ptr, std::shared_ptr<ThreadingChecker> flag,
             std::shared_ptr<Flag> ref)]. *)
Definition WeakPtr_ctor (T : class) (ptr flag ref : option nat) : M WeakPtr.t :=
  retain_flag ref;;
  a ← subject_get ptr;                   (* ptr.get() *)
  raw ← uintptr_cast (Class T) (Class T) a;
  assert_ (ret true);;                   (* T, a class, is not void *)
  ret (WeakPtr.mk ref flag ptr a raw).

(** [std::shared_ptr<T> StaticAsWeakPtr(T *t)] *)
Definition StaticAsWeakPtr (t : uintptr_t) : M (option nat) :=
  assert_ (ret (bool_decide (t ≠ nullptr)));;
  if negb DEBUG && bool_decide (t = nullptr) then ret None
  else shared_from_this t.

(** ** WeakPtrFactory<T, Threading> *)

(** The factory stored in slot [i]; using a destroyed factory has no defined
    meaning. *)
Definition factory (i : nat) : M WeakPtrFactory.t := λ w,
  match factories w !! i with
  | Some (Some f) => Ok (f, w)
  | _ => Fault UndefinedBehaviour
  end.

Definition set_factory (i : nat) (f : option WeakPtrFactory.t) : M unit :=
  modify (λ w, with_factories (<[i := f]> (factories w)) w).

(** [explicit WeakPtrFactory(T *ptr)], run on thread [self]; the result is the
    slot of the new factory. *)
Definition WeakPtrFactory_new (T : class) (k : Threading) (ptr : uintptr_t)
    (self : nat) : M nat :=
  threading ← make_shared_checker (ThreadingChecker_new k self);
  ref ← make_shared_flag;                      (* Flag::GetRef() *)
  i ← gets (λ w, length (factories w));
  modify (λ w, with_factories
                 (factories w ++ [Some (WeakPtrFactory.mk T k threading ref ptr)])
                 w);;
  ret i.

(** [~WeakPtrFactory()] *)
Definition WeakPtrFactory_delete (i : nat) : M unit :=
  f ← factory i;
  release_flag (WeakPtrFactory.ref_ f);;
  release_checker (Some (WeakPtrFactory.threading_ f));;
  set_factory i None.

(** [WeakPtr<T> GetWeakPtr()]: the three arguments are temporaries that own
    their object until the call returns. *)
Definition GetWeakPtr (i : nat) : M WeakPtr.t :=
  f ← factory i;
  assert_ (ret (bool_decide (WeakPtrFactory.ptr_ f ≠ nullptr)));;
  ptr ← StaticAsWeakPtr (WeakPtrFactory.ptr_ f);
  let flag := Some (WeakPtrFactory.threading_ f) in
  retain_checker flag;;                        (* std::dynamic_pointer_cast *)
  retain_flag (WeakPtrFactory.ref_ f);;
  h ← WeakPtr_ctor (WeakPtrFactory.T f) ptr flag (WeakPtrFactory.ref_ f);
  release_flag (WeakPtrFactory.ref_ f);;
  release_checker flag;;
  release_subject ptr;;
  ret h.

(** [void InvalidateWeakPtrs()], run on thread [self]. *)
Definition InvalidateWeakPtrs (i : nat) (self : nat) : M unit :=
  f ← factory i;
  threading ← make_shared_checker
                (ThreadingChecker_new (WeakPtrFactory.Threading_ f) self);
  release_checker (Some (WeakPtrFactory.threading_ f));;
  release_flag (WeakPtrFactory.ref_ f);;       (* ref_ = nullptr *)
  set_factory i
    (Some (WeakPtrFactory.mk (WeakPtrFactory.T f) (WeakPtrFactory.Threading_ f)
             threading None (WeakPtrFactory.ptr_ f))).

(** [static bool Flag::HasRefs(const weak_type &flag)] *)
Definition Flag_HasRefs (flag : option nat) : M bool :=
  ref ← lock_flag flag;
  match ref with
  | None => ret false
  | Some _ =>
      n ← flag_use_count ref;
      release_flag ref;;
      ret (negb (1 =? n)%nat)
  end.

(** [bool HasWeakPtrs() const] *)
Definition HasWeakPtrs (i : nat) : M bool :=
  f ← factory i;
  Flag_HasRefs (WeakPtrFactory.ref_ f).

(** ** Programs *)

(** What a client of the header, or the owner of a subject, can do. *)
Inductive event :=
| EvNewSubject (a : uintptr_t) (c : class)   (* std::make_shared<C>() *)
| EvRetainSubject (o : nat)                  (* an owner copies its pointer *)
| EvReleaseSubject (o : nat)                 (* an owner drops its pointer *)
| EvNewFactory (T : class) (k : Threading) (ptr : uintptr_t) (self : nat)
| EvDeleteFactory (i : nat)
| EvGetWeakPtr (i : nat)
| EvInvalidateWeakPtrs (i self : nat)
| EvHasWeakPtrs (i : nat)
| EvGet (h : WeakPtr.t) (self : nat)
| EvVoidGet (h : WeakPtr.t) (self : nat)
| EvEqual (T U : class) (a b : WeakPtr.t) (self : nat)
| EvCopy (h : WeakPtr.t)
| EvDestroy (h : WeakPtr.t)
| EvConvert (U T : class) (h : WeakPtr.t)
| EvErase (T : class) (h : WeakPtr.t)
| EvFromVoid (T : class) (h : WeakPtr.t).

(** A new subject of class [c] at address [a], owned by one [std::shared_ptr].
    The allocator never returns null nor an address that is in use. *)
Definition new_subject (a : uintptr_t) (c : class) : M nat := λ w,
  if decide (a = nullptr) then Fault Unrealisable
  else match object_at a w with
       | Some _ => Fault Unrealisable
       | None =>
           let '(o, h) := make_shared {| obj_addr := a; obj_class := c |}
                            (subjects w) in
           Ok (o, with_subjects h w)
       end.

(** Only an existing owner can be copied or dropped. *)
Definition owner_of_subject (o : nat) : M unit := λ w,
  match live_block (Some o) (subjects w) with
  | Some _ => Ok (tt, w)
  | None => Fault Unrealisable
  end.

Definition step (e : event) : M unit :=
  match e with
  | EvNewSubject a c => new_subject a c;; ret tt
  | EvRetainSubject o => owner_of_subject o;; retain_subject (Some o)
  | EvReleaseSubject o => owner_of_subject o;; release_subject (Some o)
  | EvNewFactory T k ptr self => WeakPtrFactory_new T k ptr self;; ret tt
  | EvDeleteFactory i => WeakPtrFactory_delete i
  | EvGetWeakPtr i => GetWeakPtr i;; ret tt
  | EvInvalidateWeakPtrs i self => InvalidateWeakPtrs i self
  | EvHasWeakPtrs i => HasWeakPtrs i;; ret tt
  | EvGet h self => WeakPtr_get h self;; ret tt
  | EvVoidGet h self => WeakPtr_void_get h self;; ret tt
  | EvEqual T U a b self => WeakPtr_equal T U a b self;; ret tt
  | EvCopy h => WeakPtr_copy h;; ret tt
  | EvDestroy h => WeakPtr_destroy h
  | EvConvert U T h => WeakPtr_convert U T h;; ret tt
  | EvErase T h => WeakPtr_erase T h;; ret tt
  | EvFromVoid T h => WeakPtr_from_void T h;; ret tt
  end.

Fixpoint run (es : list event) : M unit :=
  match es with
  | [] => ret tt
  | e :: es => step e;; run es
  end.

End Build.

(** ** The rest of the header *)

(** [ThreadingChecker &operator=(ThreadingChecker &&other)] of the checking
    variant, run on thread [self]: both checkers are asked, under [assert],
    whether the call is on their sequence, and [valid_thread_id_] is taken
    over from [other] (moving a [std::thread::id] copies it).  The result is
    the pair of the target and of [other] after the call. *)
Definition ThreadingChecker_move_assign (NDEBUG : bool) (self : nat)
    (this other : ThreadingChecker)
  : Result (ThreadingChecker * ThreadingChecker) :=
  if NDEBUG then Ok (other, other)
  else
    let '(ok, _) := CalledOnValidSequence self this in
    if ok then
      let '(ok', other') := CalledOnValidSequence self other in
      if ok' then Ok (other', other') else Fault AssertionFailed
    else Fault AssertionFailed.

(** [threading_->DetachFromSequence()] through an owning pointer. *)
Definition checker_DetachFromSequence (c : nat) : M unit := λ w,
  match checkers w !! c with
  | Some b =>
      Ok (tt, with_checkers
                (alter (store (DetachFromSequence (pointee b))) c (checkers w))
                w)
  | None => Fault UndefinedBehaviour
  end.

(** [template <typename U> WeakPtr<T> &operator=(const WeakPtr<U> &other)] for
    class types, returning the handle after the assignment.  The members are
    assigned in the order of the source; [ptr_ = other.ptr_] converts the
    weak pointer, under the condition of the converting constructor;
    assigning [ref_] takes a share of the flag of [other] and gives up the
    share held so far. *)
Definition WeakPtr_assign {L : Layout} (U T : class) (this other : WeakPtr.t)
  : M WeakPtr.t :=
  (if is_base_of T U then ret tt else fail Unrealisable);;
  retain_flag (WeakPtr.ref_ other);;
  release_flag (WeakPtr.ref_ this);;
  raw ← uintptr_cast (Class U) (Class T) (WeakPtr.raw_ptr_ other);
  ret (WeakPtr.mk (WeakPtr.ref_ other) (WeakPtr.threading_checker_ other)
          (WeakPtr.ptr_ other) (upcast U T (WeakPtr.ptr_stored_ other)) raw).

Module SupportsWeakPtr.
(** [template <class T, typename Threading> class SupportsWeakPtr]: the
    members the mixin adds to its subject. *)
Record t := mk {
  Threading_ : Threading;
  threading_ : nat;                (* std::shared_ptr<Threading>, never null *)
  ref_ : option nat;               (* Flag::flag_type *)
}.
End SupportsWeakPtr.

Section Rest.
Context {L : Layout}.
Variables (DEBUG NDEBUG : bool).

(** [T *operator->() const]; [operator*] differs only in dereferencing the
    result. *)
Definition WeakPtr_arrow (h : WeakPtr.t) (self : nat) : M uintptr_t :=
  assert_ NDEBUG (a ← WeakPtr_get NDEBUG h self;
                  ret (negb (bool_decide (a = nullptr))));;
  WeakPtr_get NDEBUG h self.

(** [bool WeakPtr<void>::operator==(const WeakPtr<void> &other) const], which
    is also [std::equal_to<WeakPtr<void>>]. *)
Definition WeakPtr_void_eq (this other : WeakPtr.t) (self : nat) : M bool :=
  a ← WeakPtr_void_get NDEBUG this self;
  b ← WeakPtr_void_get NDEBUG other self;
  ret (bool_decide (a = b)).

(** The constructor of the mixin, run on thread [self] with the subject. *)
Definition SupportsWeakPtr_new (k : Threading) (self : nat)
  : M SupportsWeakPtr.t :=
  threading ← make_shared_checker (ThreadingChecker_new k self);
  ref ← make_shared_flag;                      (* Flag::GetRef() *)
  ret (SupportsWeakPtr.mk k threading ref).

(** [WeakPtr<T> AsWeakPtr()] of the subject at address [this]. *)
Definition AsWeakPtr (T : class) (s : SupportsWeakPtr.t) (this : uintptr_t)
  : M WeakPtr.t :=
  ptr ← StaticAsWeakPtr DEBUG NDEBUG this;
  let flag := Some (SupportsWeakPtr.threading_ s) in
  retain_checker flag;;                        (* std::dynamic_pointer_cast *)
  retain_flag (SupportsWeakPtr.ref_ s);;
  h ← WeakPtr_ctor NDEBUG T ptr flag (SupportsWeakPtr.ref_ s);
  release_flag (SupportsWeakPtr.ref_ s);;
  release_checker flag;;
  release_subject ptr;;
  ret h.

(** [void HijackThread()] *)
Definition HijackThread (s : SupportsWeakPtr.t) : M unit :=
  checker_DetachFromSequence (SupportsWeakPtr.threading_ s).

End Rest.

(** ** Handles held in variables *)

(** A handle is an object of the program, and some member functions change
    it.  The calls a program can make on a handle it holds, with their
    arguments: *)
Inductive member :=
| MGet (self : nat)               (* get(), operator T*(), operator bool(),
                                     is_null() *)
| MArrow (self : nat)             (* operator->() *)
| MEq (other : WeakPtr.t) (self : nat)       (* operator==, operator!= *)
| MEqual (T U : class) (other : WeakPtr.t) (self : nat)
| MHash                           (* operator std::uintptr_t() *)
| MCopy                           (* a copy is built from it *)
| MConvert (U T : class)          (* a handle of another class is built from
                                     it *)
| MReset                          (* reset() *)
| MAssign (U T : class) (other : WeakPtr.t). (* operator=(other) *)

(** What a program does: an event of the factories and of the owners, the
    declaration of a variable that holds a new handle of factory [i], or a
    call on the handle held in variable [k]. *)
Inductive action :=
| Event (e : event)
| Issue (i : nat)
| Call (k : nat) (m : member).

Section Handles.
Context {L : Layout}.
Variables (DEBUG NDEBUG : bool).

(** The call of [m] on the handle [h]: the handle after the call.  Only
    [reset] and the assignment write to the members. *)
Definition call (m : member) (h : WeakPtr.t) : M WeakPtr.t :=
  match m with
  | MGet self => WeakPtr_get NDEBUG h self;; ret h
  | MArrow self => WeakPtr_arrow NDEBUG h self;; ret h
  | MEq other self => WeakPtr_eq NDEBUG h other self;; ret h
  | MEqual T U other self => WeakPtr_equal NDEBUG T U h other self;; ret h
  | MHash => ret h
  | MCopy => WeakPtr_copy h;; ret h
  | MConvert U T => WeakPtr_convert U T h;; ret h
  | MReset => WeakPtr_reset h
  | MAssign U T other => WeakPtr_assign U T h other
  end.

(** One action, on the variables [vars]: the variables after it. *)
Definition act (a : action) (vars : list WeakPtr.t) : M (list WeakPtr.t) :=
  match a with
  | Event e => step DEBUG NDEBUG e;; ret vars
  | Issue i => h ← GetWeakPtr DEBUG NDEBUG i; ret (vars ++ [h])
  | Call k m =>
      match vars !! k with
      | Some h => h' ← call m h; ret (<[k := h']> vars)
      | None => fail Unrealisable
      end
  end.

Fixpoint acts (l : list action) (vars : list WeakPtr.t)
  : M (list WeakPtr.t) :=
  match l with
  | [] => ret vars
  | a :: l => vars' ← act a vars; acts l vars'
  end.

End Handles.

(** The actions that overwrite the handle held in variable [k]. *)
Definition overwrites (k : nat) (a : action) : bool :=
  match a with
  | Call j MReset | Call j (MAssign _ _ _) => bool_decide (j = k)
  | _ => false
  end.


(** ** The algorithm of the specification *)

(** The affinity token as the specification describes it: a check in [Unbound]
    records the caller and succeeds, a check in [Bound] compares, detaching
    forgets the recorded sequence. *)
Definition affinity_of_id (t : thread_id) : affinity :=
  match t with
  | no_thread => Unbound
  | running n => Bound n
  end.

Definition check_spec (self : nat) (a : affinity) : bool * affinity :=
  match a with
  | Unbound => (true, Bound self)
  | Bound n => (bool_decide (n = self), Bound n)
  end.

Definition detach_spec (a : affinity) : affinity := Unbound.

(** The token that represents a state of the specification. *)
Definition token_of (a : affinity) : ThreadingChecker :=
  match a with
  | Unbound => ThreadingChecker_mutex no_thread
  | Bound n => ThreadingChecker_mutex (running n)
  end.

(** The address of the subject a handle designates, or null once it is gone. *)
Definition subject_address (h : WeakPtr.t) (w : World) : uintptr_t :=
  match live_block (WeakPtr.ptr_ h) (subjects w) with
  | Some _ => WeakPtr.ptr_stored_ h
  | None => nullptr
  end.

(** [resolve()] as the specification words it.  If the token reference has
    expired, the result is empty.  Otherwise the token is locked and, in a
    checking build, the current sequence is checked against the token by the
    state machine of the specification, [check_spec], which is fatal on a
    mismatch and leaves the token in the state it returns; a build is a
    checking one when assertions are compiled in and the token is not the
    permissive variant.  Then the subject reference is locked: the result is
    empty if the subject is gone and its address otherwise. *)
Definition resolve_spec (NDEBUG : bool) (h : WeakPtr.t) (self : nat) : M uintptr_t :=
  λ w,
  if expired (WeakPtr.threading_checker_ h) (checkers w) then Ok (nullptr, w)
  else
    match WeakPtr.threading_checker_ h with
    | None => Ok (nullptr, w)
    | Some c =>
        match checkers w !! c with
        | None => Ok (nullptr, w)
        | Some token =>
            let checked :=
              match (if NDEBUG then None else affinity_of (pointee token)) with
              | None => Some w
              | Some a =>
                  let '(ok, a') := check_spec self a in
                  if ok
                  then Some (with_checkers
                               (<[c := store (token_of a') token]> (checkers w))
                               w)
                  else None
              end in
            match checked with
            | None => Fault AssertionFailed
            | Some w' =>
                Ok (if expired (WeakPtr.ptr_ h) (subjects w') then nullptr
                    else WeakPtr.ptr_stored_ h, w')
            end
        end
    end.

(** ** The effect of a resolution *)

(** What the two [get] functions have in common: empty on an expired token;
    otherwise, with assertions compiled in, the sequence check, which may
    record the caller in the token and is fatal when it fails; past that,
    [answer]. *)
Definition token_gate (NDEBUG : bool) (h : WeakPtr.t) (self : nat)
    (answer : uintptr_t) : M uintptr_t := λ w,
  match WeakPtr.threading_checker_ h,
        live_block (WeakPtr.threading_checker_ h) (checkers w) with
  | Some c, Some token =>
      if NDEBUG then Ok (answer, w)
      else
        let '(ok, token') := CalledOnValidSequence self (pointee token) in
        if ok
        then Ok (answer, with_checkers (alter (store token') c (checkers w)) w)
        else Fault AssertionFailed
  | _, _ => Ok (nullptr, w)
  end.

(** ** The handle a conversion produces *)

(** A handle seen at a base [T] of its class [U]: the token, the flag and the
    control block of the subject are the same, the stored pointer and the
    cached address are moved to the subobject of the base. *)
Definition converted {L : Layout} (U T : class) (h : WeakPtr.t) : WeakPtr.t :=
  WeakPtr.mk (WeakPtr.ref_ h) (WeakPtr.threading_checker_ h) (WeakPtr.ptr_ h)
    (upcast U T (WeakPtr.ptr_stored_ h)) (upcast U T (WeakPtr.raw_ptr_ h)).

(** ** Relations between worlds, used to state the properties *)

(** Every successful run of [m] relates the worlds before and after by [R]. *)
Definition respects (R : relation World) {A} (m : M A) : Prop :=
  ∀ w a w', m w = Ok (a, w') → R w w'.

(** The checkers and the factories are left as they were. *)
Definition frame (w w' : World) : Prop :=
  checkers w' = checkers w ∧ factories w' = factories w.

(** The factories and the [use_count] of every checker are left as they were;
    the recorded sequence of a checker may have changed. *)
Definition counts (w : World) : list nat := use_count <$> checkers w.

Definition quiet (w w' : World) : Prop :=
  counts w' = counts w ∧ factories w' = factories w.

(** No subject changes its address or class, and none is forgotten. *)
Definition same_objects (w w' : World) : Prop :=
  (pointee <$> subjects w) `prefix_of` (pointee <$> subjects w').

(** ** The invariant of the token heap *)

(** Factory [i] is alive and its [threading_] is the token [c]. *)
Definition owns (w : World) (i c : nat) : Prop :=
  ∃ f, factories w !! i = Some (Some f) ∧ WeakPtrFactory.threading_ f = c.

(** Every living factory is the one owner of its token, and no two factories
    share a token: [threading_] is private and a factory cannot be copied. *)
Record Inv (w : World) : Prop := {
  inv_live : ∀ i c, owns w i c → counts w !! c = Some 1%nat;
  inv_unique : ∀ i j c, owns w i c → owns w j c → i = j;
}.

(** The token [c] has been destroyed. *)
Definition dead (w : World) (c : nat) : Prop := counts w !! c = Some 0%nat.

(** How one event moves the token heap and the factories. *)
Inductive transition (e : event) (w w' : World) : Prop :=
| tr_quiet :
    quiet w w' → transition e w w'
| tr_new f :
    counts w' = counts w ++ [1%nat] →
    factories w' = factories w ++ [Some f] →
    WeakPtrFactory.threading_ f = length (counts w) →
    transition e w w'
| tr_delete i f :
    e = EvDeleteFactory i →
    factories w !! i = Some (Some f) →
    counts w' = alter pred (WeakPtrFactory.threading_ f) (counts w) →
    factories w' = <[i := None]> (factories w) →
    transition e w w'
| tr_invalidate i self f f' :
    e = EvInvalidateWeakPtrs i self →
    factories w !! i = Some (Some f) →
    counts w' = alter pred (WeakPtrFactory.threading_ f) (counts w ++ [1%nat]) →
    factories w' = <[i := Some f']> (factories w) →
    WeakPtrFactory.threading_ f' = length (counts w) →
    transition e w w'.

(** ** Tokens and their recorded sequence *)

Definition payloads (w : World) : list ThreadingChecker := pointee <$> checkers w.

(** No token is [Unbound]: a factory offers no way to detach its token. *)
Definition bound_tokens (w : World) : Prop :=
  Forall (λ c, c ≠ ThreadingChecker_mutex no_thread) (payloads w).

(** From a world without unbound tokens, no token changes and no unbound one
    appears. *)
Definition steady (w w' : World) : Prop :=
  bound_tokens w → bound_tokens w' ∧ payloads w `prefix_of` payloads w'.

(** ** Generations *)

(** The events that end the current generation of factory [i]. *)
Definition revokes (i : nat) (e : event) : bool :=
  match e with
  | EvDeleteFactory j | EvInvalidateWeakPtrs j _ => bool_decide (j = i)
  | _ => false
  end.

Definition revoke_free (i : nat) (es : list event) : bool :=
  forallb (λ e, negb (revokes i e)) es.

(** The token of a handle issued by factory [i]: destroyed, or still the
    current token of the factory. *)
Definition issued (w : World) (i c : nat) : Prop := dead w c ∨ owns w i c.

(** ** Destroyed subjects *)

(** The subject of control block [o] has been destroyed: the block exists and
    has no owner left. *)
Definition gone (w : World) (o : nat) : Prop :=
  (use_count <$> subjects w) !! o = Some 0%nat.

(** No destroyed subject comes back. *)
Definition graves (w w' : World) : Prop := ∀ o, gone w o → gone w' o.

(** ** Scenarios *)

(** The result of a computation, without the final world. *)
Definition value {A} (r : Result (A * World)) : option A :=
  match r with
  | Ok (a, _) => Some a
  | Fault _ => None
  end.

(** Two subjects, one of a base class at 16 and one of a derived class at 32,
    each with its factory and one handle. *)
Definition base_and_derived {L : Layout} : M (WeakPtr.t * WeakPtr.t) :=
  new_subject 16 [1%nat];;
  new_subject 32 [1%nat; 2%nat];;
  a ← WeakPtrFactory_new [1%nat] Threading_void 16 0;
  b ← WeakPtrFactory_new [1%nat; 2%nat] Threading_void 32 0;
  ha ← GetWeakPtr false false a;
  hb ← GetWeakPtr false false b;
  ret (ha, hb).


(** A subject at 16 and its factory, invalidated once; then one handle is
    issued: the [ref_] of the factory and the [ref_] of the handle. *)
Definition flag_after_invalidate {L : Layout} : M (option nat * option nat) :=
  new_subject 16 [1%nat];;
  i ← WeakPtrFactory_new [1%nat] Threading_void 16 7;
  InvalidateWeakPtrs i 7;;
  f ← factory i;
  h ← GetWeakPtr false false i;
  ret (WeakPtrFactory.ref_ f, WeakPtr.ref_ h).

(** An object of class [[1; 2]], derived from [[1]], at address 16. *)
Definition one_derived_object : World :=
  {| checkers := []; flags := [];
     subjects := [SharedBlock 1 {| obj_addr := 16; obj_class := [1%nat; 2%nat] |}];
     factories := [] |}.

(** A subject at 16, its factory, a handle, the handle erased; then the last
    owner of the subject drops it. *)
Definition erased_after_destruction {L : Layout} : M WeakPtr.t :=
  o ← new_subject 16 [1%nat];
  i ← WeakPtrFactory_new [1%nat] Threading_mutex 16 7;
  h ← GetWeakPtr true false i;
  e ← WeakPtr_erase [1%nat] h;
  release_subject (Some o);;
  ret e.

(** Two subjects at 16 and 32, each with a factory and a handle; then the
    first factory is invalidated and the second subject destroyed. *)
Definition two_cut_off_handles {L : Layout} : M (WeakPtr.t * WeakPtr.t) :=
  run false false
    [EvNewSubject 16 [1%nat]; EvNewSubject 32 [1%nat];
     EvNewFactory [1%nat] Threading_void 16 0;
     EvNewFactory [1%nat] Threading_void 32 0];;
  h1 ← GetWeakPtr false false 0;
  h2 ← GetWeakPtr false false 1;
  run false false [EvInvalidateWeakPtrs 0 0; EvReleaseSubject 1];;
  ret (h1, h2).

(** A subject at 16 that supports weak pointers by inheritance, built on
    sequence 7 with a checking token, and one handle to it. *)
Definition supported_subject {L : Layout} : M (SupportsWeakPtr.t * WeakPtr.t) :=
  new_subject 16 [1%nat];;
  s ← SupportsWeakPtr_new Threading_mutex 7;
  h ← AsWeakPtr true false [1%nat] s 16;
  ret (s, h).

(** A factory that was given a null pointer. *)
Definition factory_of_null : World :=
  {| checkers := [SharedBlock 1 ThreadingChecker_void];
     flags := [SharedBlock 1 ()];
     subjects := [];
     factories := [Some (WeakPtrFactory.mk [1%nat] Threading_void 0
                           (Some 0%nat) nullptr)] |}.

(** * Properties *)

(** ** Control blocks *)

Lemma decr_incr {A} (b : shared_block A) : decr (incr b) = b.
Proof. by destruct b. Qed.

Lemma alter_decr_incr {A} (i : nat) (h : heap A) :
  alter decr i (alter incr i h) = h.
Proof.
  rewrite list_alter_alter_eq. apply list_alter_id. intros b. apply decr_incr.
Qed.

Lemma release_retain {A} (p : option nat) (h : heap A) :
  release p (retain p h) = h.
Proof. destruct p as [i|]; [|done]. apply alter_decr_incr. Qed.

Lemma live_block_Some {A} (p : option nat) (h : heap A) b :
  live_block p h = Some b ↔
  ∃ i, p = Some i ∧ h !! i = Some b ∧ use_count b ≠ 0%nat.
Proof.
  unfold live_block. split.
  - destruct p as [i|]; [|done]. destruct (h !! i) as [b'|] eqn:Hi; [|done].
    destruct (decide (use_count b' = 0%nat)); [done|].
    intros [= <-]. by exists i.
  - intros (i & -> & -> & Hn). by destruct (decide (use_count b = 0%nat)).
Qed.

Lemma lock_live {A} (i : nat) (h : heap A) b :
  live_block (Some i) h = Some b → lock (Some i) h = (Some i, retain (Some i) h).
Proof. unfold lock. by intros ->. Qed.

Lemma lock_expired {A} (p : option nat) (h : heap A) :
  live_block p h = None → lock p h = (None, h).
Proof. unfold lock. by intros ->. Qed.

Lemma release_store_retain {A} (i : nat) (x : A) (h : heap A) :
  release (Some i) (alter (store x) i (alter incr i h)) = alter (store x) i h.
Proof.
  unfold release, retain. rewrite !list_alter_alter_eq.
  apply list_alter_ext; [|done]. by intros [] _.
Qed.

Lemma alter_store_same {A} (c : nat) (b : shared_block A) (h : heap A) :
  h !! c = Some b → alter (store (pointee b)) c h = h.
Proof.
  intros Hc. apply list_eq. intros j. destruct (decide (c = j)) as [<-|].
  - rewrite list_lookup_alter_eq, Hc. by destruct b.
  - by rewrite list_lookup_alter_ne.
Qed.

Lemma live_block_alter_store {A} (p : option nat) (c : nat) (x : A)
    (h : heap A) :
  live_block p (alter (store x) c h)
  = (if decide (p = Some c) then store x else id) <$> live_block p h.
Proof.
  destruct p as [i|]; [|done]. unfold live_block.
  destruct (decide (i = c)) as [->|Hne].
  - rewrite decide_True by done. rewrite list_lookup_alter_eq.
    destruct (h !! c) as [t|]; [|done]. cbn [fmap option_fmap option_map store use_count].
    by destruct (decide (use_count t = 0%nat)).
  - rewrite decide_False by congruence. rewrite list_lookup_alter_ne by done.
    destruct (h !! i) as [t|]; [|done].
    by destruct (decide (use_count t = 0%nat)).
Qed.

Lemma with_checkers_id w : with_checkers (checkers w) w = w.
Proof. by destruct w. Qed.
Lemma with_flags_id w : with_flags (flags w) w = w.
Proof. by destruct w. Qed.
Lemma with_subjects_id w : with_subjects (subjects w) w = w.
Proof. by destruct w. Qed.

(** Unfolding of the monad and of the pointer operations of the three heaps. *)
Ltac munfold :=
  unfold lock_checker, retain_checker, release_checker, make_shared_checker,
    lock_flag, retain_flag, release_flag, make_shared_flag, flag_use_count,
    lock_subject, retain_subject, release_subject, subject_get in *;
  unfold bind, ret, gets, modify, fail in *.

(** Locking the subject, reading its address and dropping the lock leaves the
    world as it was. *)
Lemma subject_lock_get_release (p : option nat) (stored : uintptr_t)
    (w : World) :
  subject_lock_get p stored w
  = Ok (match live_block p (subjects w) with
        | Some _ => stored
        | None => nullptr
        end, w).
Proof.
  unfold subject_lock_get. munfold.
  destruct (live_block p (subjects w)) as [o|] eqn:Hl.
  - apply live_block_Some in Hl as Hl'. destruct Hl' as (i & -> & Hi & _).
    rewrite (lock_live _ _ _ Hl). cbn [subjects with_subjects].
    rewrite (release_retain (Some i) (subjects w)). by destruct w.
  - rewrite (lock_expired _ _ Hl). by destruct w.
Qed.

(** ** C5: the affinity token *)

Lemma same_thread (n self : nat) :
  bool_decide (running n = this_thread_get_id self) = bool_decide (n = self).
Proof. apply bool_decide_ext. unfold this_thread_get_id. split; congruence. Qed.

(** C5 (as amended).  The checking token is a state machine over [Unbound] and
    [Bound]: it is constructed in [Bound], bound to the constructing sequence;
    a check in [Unbound] records the caller and succeeds; a check in [Bound]
    succeeds exactly when the caller is the recorded sequence, and leaves the
    state alone; an asserted check that fails is fatal; detaching returns the
    token to [Unbound], from where the next check binds again. *)
Theorem ThreadingChecker_state_machine (self : nat) (t : thread_id) (w : World) :
  ThreadingChecker_new Threading_mutex self
    = ThreadingChecker_mutex (running self)
  ∧ affinity_of (ThreadingChecker_new Threading_mutex self) = Some (Bound self)
  ∧ (∃ ok t',
        CalledOnValidSequence self (ThreadingChecker_mutex t)
          = (ok, ThreadingChecker_mutex t')
        ∧ check_spec self (affinity_of_id t) = (ok, affinity_of_id t'))
  ∧ assert_ false
      (ret (fst (CalledOnValidSequence self (ThreadingChecker_mutex t)))) w
    = (if fst (check_spec self (affinity_of_id t))
       then Ok (tt, w) else Fault AssertionFailed)
  ∧ affinity_of (DetachFromSequence (ThreadingChecker_mutex t))
    = Some (detach_spec (affinity_of_id t))
  ∧ CalledOnValidSequence self (DetachFromSequence (ThreadingChecker_mutex t))
    = (true, ThreadingChecker_mutex (running self)).
Proof.
  repeat split; try done.
  - destruct t as [|n]; simpl.
    + eexists _, _. split; [done|]. done.
    + exists (bool_decide (n = self)), (running n).
      by rewrite same_thread.
  - unfold assert_, bind, ret, fail. destruct t as [|n]; simpl; [done|].
    rewrite same_thread. by destruct (bool_decide (n = self)).
Qed.

(** C5, counterexample.  A token constructed on sequence 1 is not [Unbound]:
    its very first check, made from sequence 2, fails instead of recording the
    caller. *)
Lemma ThreadingChecker_starts_bound :
  affinity_of (ThreadingChecker_new Threading_mutex 1) ≠ Some Unbound
  ∧ CalledOnValidSequence 2 (ThreadingChecker_new Threading_mutex 1)
    = (false, ThreadingChecker_mutex (running 1)).
Proof. split; [discriminate | reflexivity]. Qed.

(** ** C1: resolution of a typed handle *)

(** The typed resolution is the token gate followed by the lock of the
    subject reference. *)
Lemma WeakPtr_get_gate (NDEBUG : bool) (h : WeakPtr.t) (self : nat) (w : World) :
  WeakPtr_get NDEBUG h self w
  = token_gate NDEBUG h self (subject_address h w) w.
Proof.
  unfold WeakPtr_get, token_gate, expired.
  unfold bind at 1, gets at 1.
  destruct (live_block (WeakPtr.threading_checker_ h) (checkers w))
    as [token|] eqn:Hl.
  2:{ by destruct (WeakPtr.threading_checker_ h). }
  apply live_block_Some in Hl as Hl'. destruct Hl' as (c & Hc & Hi & Hn).
  rewrite Hc in *.
  unfold bind at 1, lock_checker. rewrite (lock_live _ _ _ Hl).
  unfold assert_. destruct NDEBUG.
  - unfold bind, ret at 1. rewrite subject_lock_get_release.
    unfold release_checker, modify, ret, subject_address, with_checkers.
    cbn [checkers flags subjects factories].
    rewrite (release_retain (Some c) (checkers w)). by destruct w.
  - unfold bind, checker_CalledOnValidSequence.
    cbn [checkers with_checkers].
    unfold retain at 1. rewrite list_lookup_alter_eq, Hi.
    cbn [fmap option_fmap option_map pointee incr].
    destruct (CalledOnValidSequence self (pointee token)) as [ok token'].
    destruct ok; [|done]. unfold ret at 1.
    rewrite subject_lock_get_release.
    unfold release_checker, modify, ret, subject_address, with_checkers.
    cbn [checkers flags subjects factories].
    unfold retain. by rewrite (release_store_retain c token' (checkers w)).
Qed.

(** The sequence check of the code is the check of the specification on the
    state that the token represents; the permissive variant has no state and
    always accepts. *)
Lemma CalledOnValidSequence_check_spec (self : nat) (c : ThreadingChecker) :
  CalledOnValidSequence self c
  = match affinity_of c with
    | None => (true, c)
    | Some a => let '(ok, a') := check_spec self a in (ok, token_of a')
    end.
Proof.
  destruct c as [|[|n]]; simpl; [done..|]. by rewrite same_thread.
Qed.

Lemma alter_store_insert {A} (x : A) (c : nat) (b : shared_block A)
    (h : heap A) :
  h !! c = Some b → alter (store x) c h = <[c := store x b]> h.
Proof.
  intros Hc. apply list_eq. intros j. destruct (decide (c = j)) as [<-|].
  - rewrite list_lookup_alter_eq, list_lookup_insert_eq, Hc; [done|].
    by eapply lookup_lt_Some.
  - by rewrite list_lookup_alter_ne, list_lookup_insert_ne.
Qed.

(** C1.  For a handle of class type, [get()] is the algorithm of the
    specification, on every world and from every sequence: empty on an expired
    token; otherwise, in a checking build, the check of the caller's sequence
    against the bound one, as the state machine of the specification makes
    it, fatal on a mismatch; then the subject's address if the subject is
    alive and empty if it is gone. *)
Theorem WeakPtr_get_resolve (NDEBUG : bool) (h : WeakPtr.t) (self : nat) (w : World) :
  WeakPtr_get NDEBUG h self w = resolve_spec NDEBUG h self w.
Proof.
  rewrite WeakPtr_get_gate. unfold resolve_spec, token_gate, expired.
  destruct (live_block (WeakPtr.threading_checker_ h) (checkers w))
    as [token|] eqn:Hl; [|by destruct (WeakPtr.threading_checker_ h)].
  apply live_block_Some in Hl as (c & -> & Hc & _). rewrite Hc.
  assert (∀ w', (if match live_block (WeakPtr.ptr_ h) (subjects w') with
                    | Some _ => false
                    | None => true
                    end
                 then nullptr else WeakPtr.ptr_stored_ h) = subject_address h w')
    as Hgone.
  { intros w'. unfold subject_address. by destruct (live_block _ _). }
  destruct NDEBUG; [by rewrite Hgone|].
  rewrite CalledOnValidSequence_check_spec.
  destruct (affinity_of (pointee token)) as [a|].
  - destruct (check_spec self a) as [[] a']; [|done].
    by rewrite Hgone, (alter_store_insert _ _ _ _ Hc).
  - by rewrite Hgone, (alter_store_same _ _ _ Hc), with_checkers_id.
Qed.

(** ** Reasoning about computations *)

Lemma bind_Ok {A B} (m : M A) (f : A → M B) w r :
  bind m f w = Ok r ↔ ∃ a w1, m w = Ok (a, w1) ∧ f a w1 = Ok r.
Proof.
  unfold bind. destruct (m w) as [[a w1]|e].
  - split; [by exists a, w1 | by intros (? & ? & [= <- <-] & ?)].
  - split; [done | by intros (? & ? & ? & ?)].
Qed.

Section respects.
Context {L : Layout}.
Context (R : relation World) `{!PreOrder R}.

Lemma respects_ret {A} (a : A) : respects R (ret a).
Proof. intros w ? ? [= _ <-]. reflexivity. Qed.

Lemma respects_fail {A} e : respects R (@fail A e).
Proof. intros w ? ? [=]. Qed.

Lemma respects_gets {A} (f : World → A) : respects R (gets f).
Proof. intros w ? ? [= _ <-]. reflexivity. Qed.

Lemma respects_bind {A B} (m : M A) (f : A → M B) :
  respects R m → (∀ a, respects R (f a)) → respects R (bind m f).
Proof.
  intros Hm Hf w b w' (a & w1 & H1 & H2)%bind_Ok.
  transitivity w1; [by eapply Hm | by eapply Hf].
Qed.

Lemma respects_modify (f : World → World) :
  (∀ w, R w (f w)) → respects R (modify f).
Proof. intros Hf w ? ? [= _ <-]. apply Hf. Qed.

Lemma respects_if {A} (b : bool) (m1 m2 : M A) :
  respects R m1 → respects R m2 → respects R (if b then m1 else m2).
Proof. by destruct b. Qed.

Lemma respects_decide {A} P `{!Decision P} (m1 m2 : M A) :
  respects R m1 → respects R m2 → respects R (if decide P then m1 else m2).
Proof. by destruct (decide P). Qed.
End respects.

#[global] Instance frame_preorder : PreOrder frame.
Proof.
  split; [by intros w | intros w1 w2 w3 [] []; split; congruence].
Qed.
#[global] Instance quiet_preorder : PreOrder quiet.
Proof.
  split; [by intros w | intros w1 w2 w3 [] []; split; congruence].
Qed.
#[global] Instance same_objects_preorder : PreOrder same_objects.
Proof.
  split.
  - intros w. unfold same_objects. reflexivity.
  - intros w1 w2 w3 ??. unfold same_objects in *. by etransitivity.
Qed.

Lemma frame_quiet w w' : frame w w' → quiet w w'.
Proof. intros [Hc Hf]. split; [unfold counts; by rewrite Hc | done]. Qed.

Lemma respects_weaken (R R' : relation World) {A} (m : M A) :
  (∀ w w', R w w' → R' w w') → respects R m → respects R' m.
Proof. intros HR Hm w a w' H. eauto. Qed.

Lemma fmap_alter_same {A B} (f : A → B) (g : A → A) i (l : list A) :
  (∀ x, f (g x) = f x) → f <$> alter g i l = f <$> l.
Proof.
  intros Hg. rewrite (list_fmap_alter f g id); [by apply list_alter_id|].
  apply Forall_forall. intros x _. apply Hg.
Qed.

Lemma lock_cases {A} (p : option nat) (h : heap A) :
  lock p h = (None, h) ∨ lock p h = (p, retain p h).
Proof.
  unfold lock. destruct (live_block p h); [|by left].
  destruct p; [by right | by left].
Qed.

Lemma fmap_pointee_retain {A} p (h : heap A) :
  pointee <$> retain p h = pointee <$> h.
Proof. destruct p; [|done]. by apply fmap_alter_same. Qed.

Lemma fmap_pointee_release {A} p (h : heap A) :
  pointee <$> release p h = pointee <$> h.
Proof. destruct p; [|done]. by apply fmap_alter_same. Qed.

Lemma fmap_count_store {A} (x : A) i (h : heap A) :
  use_count <$> alter (store x) i h = use_count <$> h.
Proof. by apply fmap_alter_same. Qed.

Create HintDb frame_db.
Create HintDb objects_db.

(** One step through the structure of a computation. *)
Ltac respects_step :=
  match goal with
  | |- respects _ (bind _ _) => apply respects_bind; [apply _ | | intros ?]
  | |- respects _ (ret _) => apply respects_ret; apply _
  | |- respects _ (fail _) => apply respects_fail
  | |- respects _ (gets _) => apply respects_gets; apply _
  | |- respects _ (if decide _ then _ else _) => apply respects_decide
  | |- respects _ (if _ then _ else _) => apply respects_if
  | |- respects _ (match ?x with _ => _ end) => destruct x
  end.

Ltac respects_with db := repeat respects_step; eauto with db.

(** Decompose a successful run of a primitive. *)
Ltac prim :=
  let H := fresh in
  intros ? ? ? H; munfold;
  repeat match type of H with
    | context [lock ?p ?h] =>
        let Hl := fresh in destruct (lock_cases p h) as [Hl|Hl]; rewrite Hl in H
    | context [match ?x with _ => _ end] => destruct x
    end;
  simplify_eq.

Section frame_primitives.
Context {L : Layout}.
Lemma frame_lock_flag p : respects frame (lock_flag p).
Proof. prim; by split. Qed.
Lemma frame_retain_flag p : respects frame (retain_flag p).
Proof. prim; by split. Qed.
Lemma frame_release_flag p : respects frame (release_flag p).
Proof. prim; by split. Qed.
Lemma frame_make_shared_flag : respects frame make_shared_flag.
Proof. prim; by split. Qed.
Lemma frame_flag_use_count p : respects frame (flag_use_count p).
Proof. prim; by split. Qed.
Lemma frame_lock_subject p : respects frame (lock_subject p).
Proof. prim; by split. Qed.
Lemma frame_retain_subject p : respects frame (retain_subject p).
Proof. prim; by split. Qed.
Lemma frame_release_subject p : respects frame (release_subject p).
Proof. prim; by split. Qed.
Lemma frame_subject_get p : respects frame (subject_get p).
Proof. prim; by split. Qed.
Lemma frame_shared_from_this t : respects frame (shared_from_this t).
Proof. unfold shared_from_this. prim; by split. Qed.
Lemma frame_dynamic_cast F T p : respects frame (dynamic_cast F T p).
Proof. unfold dynamic_cast. prim; by split. Qed.
Lemma frame_new_subject a c : respects frame (new_subject a c).
Proof. unfold new_subject. prim; by split. Qed.
Lemma frame_owner_of_subject o : respects frame (owner_of_subject o).
Proof. unfold owner_of_subject. prim; by split. Qed.
Lemma frame_factory i : respects frame (factory i).
Proof. unfold factory. prim; by split. Qed.
End frame_primitives.

#[global] Hint Resolve frame_lock_flag frame_retain_flag frame_release_flag
  frame_make_shared_flag frame_flag_use_count frame_lock_subject
  frame_retain_subject frame_release_subject frame_subject_get
  frame_shared_from_this frame_dynamic_cast frame_new_subject
  frame_owner_of_subject frame_factory : frame_db.

Section objects_primitives.
Context {L : Layout}.
Lemma objects_lock_checker p : respects same_objects (lock_checker p).
Proof. prim; by unfold same_objects. Qed.
Lemma objects_retain_checker p : respects same_objects (retain_checker p).
Proof. prim; by unfold same_objects. Qed.
Lemma objects_release_checker p : respects same_objects (release_checker p).
Proof. prim; by unfold same_objects. Qed.
Lemma objects_make_shared_checker c :
  respects same_objects (make_shared_checker c).
Proof. prim; by unfold same_objects. Qed.
Lemma objects_checker_Called c self :
  respects same_objects (checker_CalledOnValidSequence c self).
Proof. unfold checker_CalledOnValidSequence. prim; by unfold same_objects. Qed.
Lemma objects_lock_flag p : respects same_objects (lock_flag p).
Proof. prim; by unfold same_objects. Qed.
Lemma objects_retain_flag p : respects same_objects (retain_flag p).
Proof. prim; by unfold same_objects. Qed.
Lemma objects_release_flag p : respects same_objects (release_flag p).
Proof. prim; by unfold same_objects. Qed.
Lemma objects_make_shared_flag : respects same_objects make_shared_flag.
Proof. prim; by unfold same_objects. Qed.
Lemma objects_flag_use_count p : respects same_objects (flag_use_count p).
Proof. prim; by unfold same_objects. Qed.
Lemma objects_lock_subject p : respects same_objects (lock_subject p).
Proof.
  prim; unfold same_objects; cbn [subjects with_subjects];
    by rewrite ?fmap_pointee_retain.
Qed.
Lemma objects_retain_subject p : respects same_objects (retain_subject p).
Proof.
  prim. unfold same_objects. cbn [subjects with_subjects].
  by rewrite fmap_pointee_retain.
Qed.
Lemma objects_release_subject p : respects same_objects (release_subject p).
Proof.
  prim. unfold same_objects. cbn [subjects with_subjects].
  by rewrite fmap_pointee_release.
Qed.
Lemma objects_subject_get p : respects same_objects (subject_get p).
Proof. prim; by unfold same_objects. Qed.
Lemma objects_shared_from_this t : respects same_objects (shared_from_this t).
Proof.
  unfold shared_from_this. prim. unfold same_objects.
  cbn [subjects with_subjects].
  by rewrite fmap_alter_same.
Qed.
Lemma objects_dynamic_cast F T p : respects same_objects (dynamic_cast F T p).
Proof. unfold dynamic_cast. prim; by unfold same_objects. Qed.
Lemma objects_new_subject a c : respects same_objects (new_subject a c).
Proof.
  unfold new_subject, make_shared. prim. unfold same_objects.
  cbn [subjects with_subjects]. rewrite fmap_app. by apply prefix_app_r.
Qed.
Lemma objects_owner_of_subject o : respects same_objects (owner_of_subject o).
Proof. unfold owner_of_subject. prim; by unfold same_objects. Qed.
Lemma objects_factory i : respects same_objects (factory i).
Proof. unfold factory. prim; by unfold same_objects. Qed.
Lemma objects_modify_factories f :
  respects same_objects (modify (λ w, with_factories (f w) w)).
Proof. prim; by unfold same_objects. Qed.
End objects_primitives.

#[global] Hint Resolve objects_lock_checker objects_retain_checker
  objects_release_checker objects_make_shared_checker objects_checker_Called
  objects_lock_flag objects_retain_flag objects_release_flag
  objects_make_shared_flag objects_flag_use_count objects_lock_subject
  objects_retain_subject objects_release_subject objects_subject_get
  objects_shared_from_this objects_dynamic_cast objects_new_subject
  objects_owner_of_subject objects_factory objects_modify_factories : objects_db.

(** ** Resolution of an erased handle *)

Lemma WeakPtr_void_get_gate (NDEBUG : bool) (h : WeakPtr.t) (self : nat) (w : World) :
  WeakPtr_void_get NDEBUG h self w
  = token_gate NDEBUG h self (WeakPtr.raw_ptr_ h) w.
Proof.
  unfold WeakPtr_void_get, token_gate, expired.
  unfold bind at 1, gets at 1.
  destruct (live_block (WeakPtr.threading_checker_ h) (checkers w))
    as [token|] eqn:Hl.
  2:{ by destruct (WeakPtr.threading_checker_ h). }
  apply live_block_Some in Hl as Hl'. destruct Hl' as (c & Hc & Hi & Hn).
  rewrite Hc in *.
  unfold bind at 1, lock_checker. rewrite (lock_live _ _ _ Hl).
  unfold assert_. destruct NDEBUG.
  - unfold bind, ret at 1.
    unfold release_checker, modify, ret, with_checkers.
    cbn [checkers flags subjects factories].
    rewrite (release_retain (Some c) (checkers w)). by destruct w.
  - unfold bind, checker_CalledOnValidSequence.
    cbn [checkers with_checkers].
    unfold retain at 1. rewrite list_lookup_alter_eq, Hi.
    cbn [fmap option_fmap option_map pointee incr].
    destruct (CalledOnValidSequence self (pointee token)) as [ok token'].
    destruct ok; [|done]. unfold ret at 1.
    unfold release_checker, modify, ret, with_checkers.
    cbn [checkers flags subjects factories].
    unfold retain. by rewrite (release_store_retain c token' (checkers w)).
Qed.

(** A resolution changes nothing but the sequence recorded in the token. *)
Lemma token_gate_quiet NDEBUG h self answer :
  respects quiet (token_gate NDEBUG h self answer).
Proof.
  intros w a w' H. unfold token_gate in H.
  destruct (WeakPtr.threading_checker_ h) as [c|]; [|by simplify_eq].
  destruct (live_block _ _) as [token|]; [|by simplify_eq].
  destruct NDEBUG; [by simplify_eq|].
  destruct (CalledOnValidSequence _ _) as [[] token']; simplify_eq.
  split; [|done]. unfold counts. cbn [checkers with_checkers].
  apply fmap_count_store.
Qed.

Lemma token_gate_objects NDEBUG h self answer w a w' :
  token_gate NDEBUG h self answer w = Ok (a, w') →
  subjects w' = subjects w ∧ flags w' = flags w.
Proof.
  intros H. unfold token_gate in H.
  destruct (WeakPtr.threading_checker_ h) as [c|]; [|by simplify_eq].
  destruct (live_block _ _) as [token|]; [|by simplify_eq].
  destruct NDEBUG; [by simplify_eq|].
  by destruct (CalledOnValidSequence _ _) as [[] token']; simplify_eq.
Qed.

(** ** What each operation leaves untouched *)

Section footprint.
Context {L : Layout}.
Variables (DEBUG NDEBUG : bool).

Lemma respects_assert R `{!PreOrder R} (cond : M bool) :
  respects R cond → respects R (assert_ NDEBUG cond).
Proof. intros Hc. unfold assert_. respects_with core. Qed.

Lemma frame_uintptr_cast F T p : respects frame (uintptr_cast F T p).
Proof. unfold uintptr_cast. respects_with frame_db. Qed.

Lemma frame_subject_lock_get p a : respects frame (subject_lock_get p a).
Proof. unfold subject_lock_get. respects_with frame_db. Qed.

Hint Resolve frame_uintptr_cast frame_subject_lock_get : frame_db.

Lemma frame_StaticAsWeakPtr t :
  respects frame (StaticAsWeakPtr DEBUG NDEBUG t).
Proof.
  unfold StaticAsWeakPtr. respects_with frame_db.
  apply respects_assert; [apply _|]. respects_with frame_db.
Qed.

Lemma frame_WeakPtr_ctor T ptr flag ref :
  respects frame (WeakPtr_ctor NDEBUG T ptr flag ref).
Proof.
  unfold WeakPtr_ctor. respects_with frame_db.
  apply respects_assert; [apply _|]. respects_with frame_db.
Qed.

Lemma frame_WeakPtr_copy h : respects frame (WeakPtr_copy h).
Proof. unfold WeakPtr_copy. respects_with frame_db. Qed.

Lemma frame_WeakPtr_destroy h : respects frame (WeakPtr_destroy h).
Proof. unfold WeakPtr_destroy. respects_with frame_db. Qed.

Lemma frame_WeakPtr_reset h : respects frame (WeakPtr_reset h).
Proof. unfold WeakPtr_reset. respects_with frame_db. Qed.

Lemma frame_WeakPtr_convert U T h : respects frame (WeakPtr_convert U T h).
Proof. unfold WeakPtr_convert. respects_with frame_db. Qed.

Lemma frame_WeakPtr_erase T h : respects frame (WeakPtr_erase T h).
Proof. unfold WeakPtr_erase. respects_with frame_db. Qed.

Hint Resolve frame_WeakPtr_reset : frame_db.

Lemma frame_WeakPtr_from_void T h : respects frame (WeakPtr_from_void T h).
Proof. unfold WeakPtr_from_void. respects_with frame_db. Qed.

Lemma frame_Flag_HasRefs flag : respects frame (Flag_HasRefs flag).
Proof. unfold Flag_HasRefs. respects_with frame_db. Qed.

Hint Resolve frame_Flag_HasRefs : frame_db.

Lemma frame_HasWeakPtrs i : respects frame (HasWeakPtrs i).
Proof. unfold HasWeakPtrs. respects_with frame_db. Qed.

Lemma quiet_WeakPtr_get h self : respects quiet (WeakPtr_get NDEBUG h self).
Proof.
  intros w a w'. rewrite WeakPtr_get_gate. apply token_gate_quiet.
Qed.

Lemma quiet_WeakPtr_void_get h self :
  respects quiet (WeakPtr_void_get NDEBUG h self).
Proof.
  intros w a w'. rewrite WeakPtr_void_get_gate. apply token_gate_quiet.
Qed.

Lemma quiet_of_frame {A} (m : M A) : respects frame m → respects quiet m.
Proof. apply respects_weaken, frame_quiet. Qed.

Lemma quiet_WeakPtr_eq a b self : respects quiet (WeakPtr_eq NDEBUG a b self).
Proof. unfold WeakPtr_eq. respects_with core; apply quiet_WeakPtr_get. Qed.

Lemma quiet_WeakPtr_equal T U a b self :
  respects quiet (WeakPtr_equal NDEBUG T U a b self).
Proof.
  unfold WeakPtr_equal. respects_with core;
    first [ apply quiet_WeakPtr_eq
          | apply quiet_of_frame;
            first [ apply frame_WeakPtr_convert | apply frame_WeakPtr_copy
                  | apply frame_WeakPtr_destroy ] ].
Qed.
End footprint.

(** ** Issuing a handle *)

Lemma object_at_Some a w o b :
  object_at a w = Some (o, b) →
  subjects w !! o = Some b ∧ use_count b ≠ 0%nat ∧ obj_addr (pointee b) = a.
Proof. unfold object_at. intros (? & [? ?] & _)%list_find_Some. done. Qed.

Lemma assert_pure_Ok NDEBUG (b : bool) w r :
  assert_ NDEBUG (ret b) w = Ok r → r = (tt, w).
Proof.
  unfold assert_, bind, ret, fail. destruct NDEBUG; [by intros [= <-]|].
  destruct b; [by intros [= <-] | done].
Qed.

Lemma StaticAsWeakPtr_effect DEBUG NDEBUG t w ptr w1 :
  StaticAsWeakPtr DEBUG NDEBUG t w = Ok (ptr, w1) →
  (ptr = None ∧ t = nullptr ∧ w1 = w)
  ∨ (∃ o b, ptr = Some o ∧ object_at t w = Some (o, b)
            ∧ w1 = with_subjects (retain (Some o) (subjects w)) w).
Proof.
  unfold StaticAsWeakPtr.
  intros ([] & w0 & Ha%assert_pure_Ok & H)%bind_Ok. injection Ha as ->.
  destruct (negb DEBUG && bool_decide (t = nullptr)) eqn:Hb.
  - left. apply andb_true_iff in Hb as [_ Ht%bool_decide_eq_true].
    unfold ret in H. by simplify_eq.
  - right. unfold shared_from_this in H.
    destruct (object_at t w) as [[o b]|] eqn:Ho; [|done].
    exists o, b. by simplify_eq.
Qed.

Lemma uintptr_cast_same {L : Layout} T p w : uintptr_cast (Class T) (Class T) p w = Ok (p, w).
Proof. unfold uintptr_cast, is_same. by rewrite bool_decide_eq_true_2. Qed.

Lemma GetWeakPtr_effect {L : Layout} DEBUG NDEBUG i w h w' :
  GetWeakPtr DEBUG NDEBUG i w = Ok (h, w') →
  ∃ f, factories w !! i = Some (Some f)
     ∧ w' = with_flags (retain (WeakPtrFactory.ref_ f) (flags w)) w
     ∧ WeakPtr.ref_ h = WeakPtrFactory.ref_ f
     ∧ WeakPtr.threading_checker_ h = Some (WeakPtrFactory.threading_ f)
     ∧ WeakPtr.raw_ptr_ h = WeakPtrFactory.ptr_ f
     ∧ (WeakPtr.ptr_ h = None ∧ WeakPtrFactory.ptr_ f = nullptr
        ∨ ∃ o b, WeakPtr.ptr_ h = Some o ∧ subjects w !! o = Some b
                 ∧ use_count b ≠ 0%nat
                 ∧ obj_addr (pointee b) = WeakPtrFactory.ptr_ f).
Proof.
  unfold GetWeakPtr. intros (f & w0 & Hf & H)%bind_Ok.
  unfold factory in Hf. destruct (factories w !! i) as [[f'|]|] eqn:Hi; [|done..].
  injection Hf as -> ->. exists f. split; [done|].
  apply bind_Ok in H as ([] & w2 & Ha%assert_pure_Ok & H). injection Ha as ->.
  apply bind_Ok in H as (ptr & w1 & Hs%StaticAsWeakPtr_effect & H).
  unfold WeakPtr_ctor in H. munfold. cbv zeta in H.
  rewrite uintptr_cast_same in H.
  destruct (assert_ NDEBUG _ _) as [[[] w3]|] eqn:Ha; [|done].
  apply assert_pure_Ok in Ha. injection Ha as ->. injection H as <- <-.
  cbn [WeakPtr.ref_ WeakPtr.threading_checker_ WeakPtr.ptr_ WeakPtr.raw_ptr_
       checkers flags subjects factories with_checkers with_flags with_subjects].
  rewrite alter_decr_incr, (release_retain (WeakPtrFactory.ref_ f)).
  destruct Hs as [(-> & Ht & ->)|(o & b & -> & Ho & ->)].
  - split; [by destruct w0|]. repeat split; [done|]. by left.
  - apply object_at_Some in Ho as (Ho & Hn & Ha).
    cbn [checkers flags subjects factories with_subjects release retain].
    rewrite alter_decr_incr, list_lookup_alter_eq, Ho.
    cbn [fmap option_fmap option_map from_option pointee incr].
    split; [by destruct w0|]. repeat split; [done|]. right. by exists o, b.
Qed.

(** An issued handle stores the address it caches. *)
Lemma GetWeakPtr_stored {L : Layout} DEBUG NDEBUG i w h w' :
  GetWeakPtr DEBUG NDEBUG i w = Ok (h, w') →
  WeakPtr.ptr_stored_ h = WeakPtr.raw_ptr_ h.
Proof.
  unfold GetWeakPtr. intros (f & w0 & Hf & H)%bind_Ok.
  apply bind_Ok in H as ([] & w2 & Ha%assert_pure_Ok & H). injection Ha as ->.
  apply bind_Ok in H as (ptr & w1 & Hs & H).
  unfold WeakPtr_ctor in H. munfold. cbv zeta in H.
  rewrite uintptr_cast_same in H.
  destruct (assert_ NDEBUG _ _) as [[[] w3]|] eqn:Ha; [|done].
  by injection H as <- <-.
Qed.

(** ** The three operations that create and destroy tokens *)

Lemma fmap_count_decr {A} c (h : heap A) :
  use_count <$> alter decr c h = alter pred c (use_count <$> h).
Proof.
  apply (list_fmap_alter use_count decr pred), Forall_forall. by intros [] _.
Qed.

Lemma WeakPtrFactory_new_effect T k ptr self w i w' :
  WeakPtrFactory_new T k ptr self w = Ok (i, w') →
  i = length (factories w)
  ∧ counts w' = counts w ++ [1%nat]
  ∧ factories w'
    = factories w
      ++ [Some (WeakPtrFactory.mk T k (length (counts w))
                  (Some (length (flags w))) ptr)]
  ∧ subjects w' = subjects w.
Proof.
  unfold WeakPtrFactory_new, make_shared. munfold. intros [= <- <-].
  unfold counts. cbn. by rewrite fmap_app, length_fmap.
Qed.

Lemma WeakPtrFactory_delete_effect i w w' :
  WeakPtrFactory_delete i w = Ok (tt, w') →
  ∃ f, factories w !! i = Some (Some f)
     ∧ counts w' = alter pred (WeakPtrFactory.threading_ f) (counts w)
     ∧ factories w' = <[i := None]> (factories w)
     ∧ subjects w' = subjects w.
Proof.
  unfold WeakPtrFactory_delete, factory, set_factory. munfold.
  destruct (factories w !! i) as [[f|]|] eqn:Hi; [|done..].
  intros [= <-]. exists f. split; [done|]. unfold counts at 1. cbn.
  by rewrite fmap_count_decr.
Qed.

Lemma InvalidateWeakPtrs_effect i self w w' :
  InvalidateWeakPtrs i self w = Ok (tt, w') →
  ∃ f, factories w !! i = Some (Some f)
     ∧ counts w'
       = alter pred (WeakPtrFactory.threading_ f) (counts w ++ [1%nat])
     ∧ factories w'
       = <[i := Some (WeakPtrFactory.mk (WeakPtrFactory.T f)
                        (WeakPtrFactory.Threading_ f) (length (counts w)) None
                        (WeakPtrFactory.ptr_ f))]> (factories w)
     ∧ subjects w' = subjects w
     ∧ pointee <$> checkers w'
       = (pointee <$> checkers w)
         ++ [ThreadingChecker_new (WeakPtrFactory.Threading_ f) self].
Proof.
  unfold InvalidateWeakPtrs, factory, set_factory, make_shared. munfold.
  destruct (factories w !! i) as [[f|]|] eqn:Hi; [|done..].
  intros [= <-]. exists f. split; [done|]. unfold counts at 1. cbn.
  rewrite fmap_count_decr, (fmap_alter_same pointee decr) by done.
  unfold counts. by rewrite !fmap_app, length_fmap.
Qed.

(** ** The invariant of the token heap *)

Lemma Inv_empty : Inv empty_world.
Proof.
  split; [intros i c (f & Hf & _) | intros i j c (f & Hf & _) _];
    by destruct i.
Qed.

Lemma owns_quiet w w' i c : quiet w w' → owns w' i c ↔ owns w i c.
Proof. intros [_ Hf]. unfold owns. by rewrite Hf. Qed.

Lemma Inv_quiet w w' : quiet w w' → Inv w → Inv w'.
Proof.
  intros Hq [Hl Hu]. split.
  - intros i c Ho%(owns_quiet _ _ _ _ Hq). destruct Hq as [-> _]. eauto.
  - intros i j c Hi%(owns_quiet _ _ _ _ Hq) Hj%(owns_quiet _ _ _ _ Hq). eauto.
Qed.

Lemma dead_quiet w w' c : quiet w w' → dead w c → dead w' c.
Proof. intros [Hc _]. unfold dead. by rewrite Hc. Qed.

Lemma owns_lt w i c : Inv w → owns w i c → (c < length (counts w))%nat.
Proof. intros [Hl _] Ho. eapply lookup_lt_Some. eauto. Qed.

Lemma owns_snoc w w' f i c :
  factories w' = factories w ++ [Some f] →
  owns w' i c ↔
  owns w i c ∨ (i = length (factories w) ∧ WeakPtrFactory.threading_ f = c).
Proof.
  intros Hf. unfold owns. rewrite Hf. split.
  - intros (g & [Hg|[Hi Hg]]%lookup_app_Some & Hc).
    + left. by exists g.
    + right. apply list_lookup_singleton_Some in Hg as [Hz [= ->]].
      split; [lia | done].
  - intros [(g & Hg & Hc)|[-> Hc]].
    + exists g. split; [by apply lookup_app_l_Some | done].
    + exists f. split; [|done].
      rewrite lookup_app_r by lia. by rewrite Nat.sub_diag.
Qed.

Lemma owns_insert w w' g i j c :
  factories w' = <[i := g]> (factories w) →
  is_Some (factories w !! i) →
  owns w' j c ↔
  (j ≠ i ∧ owns w j c) ∨ (j = i ∧ ∃ f, g = Some f ∧ WeakPtrFactory.threading_ f = c).
Proof.
  intros Hf Hi%lookup_lt_is_Some. unfold owns. rewrite Hf.
  destruct (decide (j = i)) as [->|Hne].
  - rewrite list_lookup_insert_eq by done. split.
    + intros (f & [= ->] & Hc). right. eauto.
    + intros [[? _]|[_ (f & -> & Hc)]]; [done | eauto].
  - rewrite list_lookup_insert_ne by done. split; [by left|].
    intros [[_ ?]|[? _]]; done.
Qed.

Lemma lookup_alter_pred_zero (l : list nat) t c :
  l !! c = Some 0%nat → alter pred t l !! c = Some 0%nat.
Proof.
  intros H. destruct (decide (t = c)) as [->|].
  - by rewrite list_lookup_alter_eq, H.
  - by rewrite list_lookup_alter_ne.
Qed.

Lemma dead_transition e w w' c : transition e w w' → dead w c → dead w' c.
Proof.
  unfold dead. intros [Hq|f Hc _ _|i f _ _ Hc _|i self f f' _ _ Hc _ _] H.
  - by eapply dead_quiet.
  - rewrite Hc. by apply lookup_app_l_Some.
  - rewrite Hc. by apply lookup_alter_pred_zero.
  - rewrite Hc. by apply lookup_alter_pred_zero, lookup_app_l_Some.
Qed.

Lemma Inv_transition e w w' : transition e w w' → Inv w → Inv w'.
Proof.
  intros [Hq|f Hc Hf Ht|i f _ Hi Hc Hf|i self f f' _ Hi Hc Hf Ht] HI.
  - by eapply Inv_quiet.
  - split.
    + intros i c [Ho|[-> <-]]%(owns_snoc _ _ _ _ _ Hf); rewrite Hc.
      * apply lookup_app_l_Some. by apply HI in Ho.
      * rewrite Ht, lookup_app_r by lia. by rewrite Nat.sub_diag.
    + intros i j c [Hi|[-> <-]]%(owns_snoc _ _ _ _ _ Hf)
                   [Hj|[-> Hj]]%(owns_snoc _ _ _ _ _ Hf).
      * by eapply HI.
      * apply (owns_lt _ _ _ HI) in Hi. lia.
      * apply (owns_lt _ _ _ HI) in Hj. lia.
      * done.
  - assert (owns w i (WeakPtrFactory.threading_ f)) as Hown by by exists f.
    split.
    + intros j c [[Hne Ho]|[_ (? & [=] & _)]]%(owns_insert _ _ _ _ _ _ Hf);
        [|by rewrite Hi].
      rewrite Hc, list_lookup_alter_ne; [by apply HI in Ho|].
      intros <-. apply Hne. by eapply HI.
    + intros j k c [[_ Hj]|[_ (? & [=] & _)]]%(owns_insert _ _ _ _ _ _ Hf)
                   [[_ Hk]|[_ (? & [=] & _)]]%(owns_insert _ _ _ _ _ _ Hf);
        try (by rewrite Hi).
      by eapply HI.
  - assert (owns w i (WeakPtrFactory.threading_ f)) as Hown by by exists f.
    pose proof (owns_lt _ _ _ HI Hown) as Hlt.
    split.
    + intros j c [[Hne Ho]|[_ (? & [= <-] & <-)]]%(owns_insert _ _ _ _ _ _ Hf);
        [| |by rewrite Hi]; rewrite Hc.
      * rewrite list_lookup_alter_ne.
        -- apply lookup_app_l_Some. by apply HI in Ho.
        -- intros <-. apply Hne. by eapply HI.
      * rewrite list_lookup_alter_ne by lia.
        rewrite Ht, lookup_app_r by lia. by rewrite Nat.sub_diag.
    + intros j k c [[_ Hj]|[-> (? & [= <-] & <-)]]%(owns_insert _ _ _ _ _ _ Hf)
                   [[_ Hk]|[-> (? & [= <-] & Hk)]]%(owns_insert _ _ _ _ _ _ Hf);
        try (by rewrite Hi).
      * by eapply HI.
      * apply (owns_lt _ _ _ HI) in Hj. lia.
      * apply (owns_lt _ _ _ HI) in Hk. lia.
      * done.
Qed.

Section traces.
Context {L : Layout}.
Variables (DEBUG NDEBUG : bool).

Lemma quiet_GetWeakPtr i : respects quiet (GetWeakPtr DEBUG NDEBUG i).
Proof.
  intros w h w' (f & _ & -> & _)%GetWeakPtr_effect. by split.
Qed.

Lemma tr_quiet_run e (m : M unit) w w' :
  respects quiet m → m w = Ok (tt, w') → transition e w w'.
Proof. intros Hm H. apply tr_quiet. by eapply Hm. Qed.

Lemma step_transition e w w' :
  step DEBUG NDEBUG e w = Ok (tt, w') → transition e w w'.
Proof.
  pose proof (@respects_bind quiet _) as Hb.
  pose proof (@respects_ret quiet _) as Hr.
  pose proof (@quiet_of_frame) as Hq.
  destruct e; cbn [step];
    [ apply tr_quiet_run, Hb; [|intros ?; apply Hr]
    | apply tr_quiet_run | apply tr_quiet_run | | 
    | apply tr_quiet_run, Hb; [|intros ?; apply Hr] |
    | apply tr_quiet_run, Hb; [|intros ?; apply Hr]
    | apply tr_quiet_run, Hb; [|intros ?; apply Hr]
    | apply tr_quiet_run, Hb; [|intros ?; apply Hr]
    | apply tr_quiet_run, Hb; [|intros ?; apply Hr]
    | apply tr_quiet_run, Hb; [|intros ?; apply Hr]
    | apply tr_quiet_run
    | apply tr_quiet_run, Hb; [|intros ?; apply Hr]
    | apply tr_quiet_run, Hb; [|intros ?; apply Hr]
    | apply tr_quiet_run, Hb; [|intros ?; apply Hr] ].
  - apply quiet_of_frame, frame_new_subject.
  - apply quiet_of_frame. respects_with frame_db.
  - apply quiet_of_frame. respects_with frame_db.
  - intros (n & w1 & (_ & Hc & Hf & _)%WeakPtrFactory_new_effect & [= <-])%bind_Ok.
    by eapply tr_new.
  - intros (f & Hi & Hc & Hf & _)%WeakPtrFactory_delete_effect.
    by eapply tr_delete.
  - apply quiet_GetWeakPtr.
  - intros (f & Hi & Hc & Hf & _ & _)%InvalidateWeakPtrs_effect.
    by eapply tr_invalidate.
  - apply quiet_of_frame, frame_HasWeakPtrs.
  - apply quiet_WeakPtr_get.
  - apply quiet_WeakPtr_void_get.
  - apply quiet_WeakPtr_equal.
  - apply quiet_of_frame, frame_WeakPtr_copy.
  - apply quiet_of_frame, frame_WeakPtr_destroy.
  - apply quiet_of_frame, frame_WeakPtr_convert.
  - apply quiet_of_frame, frame_WeakPtr_erase.
  - apply quiet_of_frame, frame_WeakPtr_from_void.
Qed.

Lemma run_nil w r : run DEBUG NDEBUG [] w = Ok r → r = (tt, w).
Proof. by intros [= <-]. Qed.

Lemma run_cons e es w r :
  run DEBUG NDEBUG (e :: es) w = Ok r ↔
  ∃ w1, step DEBUG NDEBUG e w = Ok (tt, w1) ∧ run DEBUG NDEBUG es w1 = Ok r.
Proof.
  cbn [run]. rewrite bind_Ok. split.
  - intros ([] & w1 & ? & ?). eauto.
  - intros (w1 & ? & ?). by exists tt, w1.
Qed.

(** Induction along a successful run. *)
Lemma run_ind_world (P : World → Prop) es w w' :
  (∀ e w1 w2, transition e w1 w2 → P w1 → P w2) →
  run DEBUG NDEBUG es w = Ok (tt, w') → P w → P w'.
Proof.
  intros HP. revert w. induction es as [|e es IH]; intros w.
  - by intros [= <-].
  - intros (w1 & Hs%step_transition & Hr)%run_cons Hw. eauto.
Qed.

Lemma Inv_run es w w' :
  run DEBUG NDEBUG es w = Ok (tt, w') → Inv w → Inv w'.
Proof. apply run_ind_world. intros ?????. by eapply Inv_transition. Qed.

Lemma dead_run es w w' c :
  run DEBUG NDEBUG es w = Ok (tt, w') → dead w c → dead w' c.
Proof.
  apply (run_ind_world (λ w, dead w c)). intros ?????.
  by eapply dead_transition.
Qed.

(** Every world a program can reach satisfies the invariant. *)
Lemma Inv_reachable es w :
  run DEBUG NDEBUG es empty_world = Ok (tt, w) → Inv w.
Proof. intros H. eapply Inv_run; [done | apply Inv_empty]. Qed.
End traces.

(** ** Tokens keep their sequence, subjects their address *)

#[global] Instance steady_preorder : PreOrder steady.
Proof.
  split.
  - intros w Hw. by split.
  - intros w1 w2 w3 H12 H23 H1. destruct (H12 H1) as [H2 Hp12].
    destruct (H23 H2) as [H3 Hp23]. split; [done | by etransitivity].
Qed.

Lemma check_bound self c :
  c ≠ ThreadingChecker_mutex no_thread → snd (CalledOnValidSequence self c) = c.
Proof.
  destruct c as [|t]; [done|]. intros Hc. simpl.
  destruct (decide (t = no_thread)) as [->|]; done.
Qed.

Lemma ThreadingChecker_new_bound k self :
  ThreadingChecker_new k self ≠ ThreadingChecker_mutex no_thread.
Proof. by destruct k. Qed.

Lemma steady_same w w' : payloads w' = payloads w → steady w w'.
Proof. intros Hp Hw. unfold bound_tokens. by rewrite Hp. Qed.

Lemma frame_steady w w' : frame w w' → steady w w'.
Proof. intros [Hc _]. apply steady_same. unfold payloads. by rewrite Hc. Qed.

Lemma steady_of_frame {A} (m : M A) : respects frame m → respects steady m.
Proof. apply respects_weaken, frame_steady. Qed.

Section steady_primitives.
Context {L : Layout}.
Lemma steady_lock_checker p : respects steady (lock_checker p).
Proof.
  prim; apply steady_same; unfold payloads; cbn [checkers with_checkers];
    by rewrite ?fmap_pointee_retain.
Qed.
Lemma steady_retain_checker p : respects steady (retain_checker p).
Proof.
  prim. apply steady_same. unfold payloads. cbn [checkers with_checkers].
  by rewrite fmap_pointee_retain.
Qed.
Lemma steady_release_checker p : respects steady (release_checker p).
Proof.
  prim. apply steady_same. unfold payloads. cbn [checkers with_checkers].
  by rewrite fmap_pointee_release.
Qed.
Lemma steady_make_shared_checker k self :
  respects steady (make_shared_checker (ThreadingChecker_new k self)).
Proof.
  intros w a w' H. unfold make_shared_checker, make_shared in H.
  injection H as <- <-. intros Hw. unfold bound_tokens, payloads.
  cbn [checkers with_checkers]. rewrite fmap_app. split.
  - apply Forall_app. split; [done|].
    apply Forall_singleton, ThreadingChecker_new_bound.
  - by apply prefix_app_r.
Qed.
Lemma steady_checker_Called c self :
  respects steady (checker_CalledOnValidSequence c self).
Proof.
  intros w ok w' H Hw. unfold checker_CalledOnValidSequence in H.
  destruct (checkers w !! c) as [b|] eqn:Hc; [|done].
  assert (pointee b ≠ ThreadingChecker_mutex no_thread) as Hb.
  { refine (Forall_lookup_1 _ _ c _ Hw _).
    unfold payloads. by rewrite list_lookup_fmap, Hc. }
  pose proof (check_bound self _ Hb) as Hs.
  destruct (CalledOnValidSequence self (pointee b)) as [ok' c'].
  simpl in Hs. subst c'. injection H as <- <-.
  rewrite (alter_store_same _ _ _ Hc), with_checkers_id. by split.
Qed.
Lemma steady_modify_factories f :
  respects steady (modify (λ w, with_factories (f w) w)).
Proof. prim. by apply steady_same. Qed.
Lemma steady_set_factory i f : respects steady (set_factory i f).
Proof. apply steady_modify_factories. Qed.
Lemma objects_set_factory i f : respects same_objects (set_factory i f).
Proof. apply objects_modify_factories. Qed.
End steady_primitives.

Create HintDb steady_db.
#[global] Hint Resolve steady_lock_checker steady_retain_checker
  steady_release_checker steady_make_shared_checker steady_checker_Called
  steady_modify_factories steady_set_factory : steady_db.
#[global] Hint Resolve objects_set_factory : objects_db.
#[global] Hint Extern 5 (respects steady _) =>
  apply steady_of_frame; solve [eauto with frame_db] : steady_db.

Ltac respects_all db :=
  repeat first
    [ respects_step
    | match goal with
      | |- respects _ (assert_ _ _) => apply respects_assert; [apply _|]
      end ];
  eauto with db.

Section stability.
Context {L : Layout}.
Variables (DEBUG NDEBUG : bool).

Lemma steady_step e : respects steady (step DEBUG NDEBUG e).
Proof.
  destruct e; cbn [step];
    unfold WeakPtrFactory_new, WeakPtrFactory_delete, GetWeakPtr,
      InvalidateWeakPtrs, HasWeakPtrs, Flag_HasRefs, WeakPtr_equal,
      WeakPtr_eq, WeakPtr_get, WeakPtr_void_get, WeakPtr_copy,
      WeakPtr_destroy, WeakPtr_convert, WeakPtr_erase, WeakPtr_from_void,
      WeakPtr_reset, WeakPtr_ctor, StaticAsWeakPtr, subject_lock_get,
      uintptr_cast;
    respects_all steady_db.
Qed.

Lemma objects_step e : respects same_objects (step DEBUG NDEBUG e).
Proof.
  destruct e; cbn [step];
    unfold WeakPtrFactory_new, WeakPtrFactory_delete, GetWeakPtr,
      InvalidateWeakPtrs, HasWeakPtrs, Flag_HasRefs, WeakPtr_equal,
      WeakPtr_eq, WeakPtr_get, WeakPtr_void_get, WeakPtr_copy,
      WeakPtr_destroy, WeakPtr_convert, WeakPtr_erase, WeakPtr_from_void,
      WeakPtr_reset, WeakPtr_ctor, StaticAsWeakPtr, subject_lock_get,
      uintptr_cast;
    respects_all objects_db.
Qed.

Lemma respects_run R `{!PreOrder R} es :
  (∀ e, respects R (step DEBUG NDEBUG e)) → respects R (run DEBUG NDEBUG es).
Proof.
  intros Hs. induction es as [|e es IH]; cbn [run].
  - by apply respects_ret.
  - apply respects_bind; [done | apply Hs | by intros _].
Qed.

Lemma steady_run es : respects steady (run DEBUG NDEBUG es).
Proof. apply respects_run; [apply _ | apply steady_step]. Qed.

Lemma objects_run es : respects same_objects (run DEBUG NDEBUG es).
Proof. apply respects_run; [apply _ | apply objects_step]. Qed.
End stability.

(** ** C2: invalidation and generations *)

Lemma dead_live_block w c : dead w c → live_block (Some c) (checkers w) = None.
Proof.
  unfold dead, counts, live_block. rewrite list_lookup_fmap.
  destruct (checkers w !! c) as [b|]; [|done]. intros [= ->].
  by rewrite decide_True.
Qed.

Lemma get_dead NDEBUG h self w c :
  WeakPtr.threading_checker_ h = Some c → dead w c →
  WeakPtr_get NDEBUG h self w = Ok (nullptr, w).
Proof.
  intros Hc Hd. rewrite WeakPtr_get_gate. unfold token_gate.
  by rewrite Hc, (dead_live_block _ _ Hd).
Qed.

Lemma owner_revoked w i c (l : list nat) :
  Inv w → owns w i c → alter pred c (counts w ++ l) !! c = Some 0%nat.
Proof.
  intros HI Ho. rewrite list_lookup_alter_eq.
  apply HI in Ho. by rewrite (lookup_app_l_Some _ _ _ _ Ho).
Qed.

Lemma issued_transition e w w' i c :
  Inv w → transition e w w' → issued w i c → issued w' i c.
Proof.
  intros HI Ht [Hd|Ho]; [left; by eapply dead_transition|].
  destruct Ht as [Hq|f Hc Hf _|j f _ Hj Hc Hf|j self f f' _ Hj Hc Hf _].
  - right. by apply (owns_quiet _ _ _ _ Hq).
  - right. apply (owns_snoc _ _ _ _ _ Hf). by left.
  - destruct (decide (i = j)) as [->|Hne].
    + left. destruct Ho as (g & Hg & <-). rewrite Hj in Hg.
      injection Hg as <-. unfold dead. rewrite Hc.
      rewrite <-(app_nil_r (counts w)). eapply (owner_revoked _ j); [done..|].
      by exists f.
    + right. apply (owns_insert _ _ _ _ _ _ Hf); [by rewrite Hj|]. by left.
  - destruct (decide (i = j)) as [->|Hne].
    + left. destruct Ho as (g & Hg & <-). rewrite Hj in Hg.
      injection Hg as <-. unfold dead. rewrite Hc.
      eapply (owner_revoked _ j); [done..|]. by exists f.
    + right. apply (owns_insert _ _ _ _ _ _ Hf); [by rewrite Hj|]. by left.
Qed.

Lemma kept_transition e w w' i f :
  transition e w w' → revokes i e = false →
  factories w !! i = Some (Some f) → factories w' !! i = Some (Some f).
Proof.
  intros [[_ Hq]|g _ Hf _|j g -> _ _ Hf|j self g g' -> _ _ Hf _] Hr Hi.
  - by rewrite Hq.
  - rewrite Hf. by apply lookup_app_l_Some.
  - apply bool_decide_eq_false in Hr. rewrite Hf.
    by rewrite list_lookup_insert_ne.
  - apply bool_decide_eq_false in Hr. rewrite Hf.
    by rewrite list_lookup_insert_ne.
Qed.

Section generations.
Context {L : Layout}.
Variables (DEBUG NDEBUG : bool).

Lemma issued_run es w w' i c :
  run DEBUG NDEBUG es w = Ok (tt, w') →
  Inv w → issued w i c → Inv w' ∧ issued w' i c.
Proof.
  intros Hr HI Hs.
  apply (run_ind_world DEBUG NDEBUG (λ w, Inv w ∧ issued w i c) es w w');
    [|done..].
  intros e w1 w2 Ht [??]. split; [by eapply Inv_transition|].
  by eapply issued_transition.
Qed.

Lemma kept_run es w w' i f :
  run DEBUG NDEBUG es w = Ok (tt, w') → revoke_free i es = true →
  factories w !! i = Some (Some f) → factories w' !! i = Some (Some f).
Proof.
  revert w. induction es as [|e es IH]; intros w.
  - by intros [= <-].
  - intros (w1 & Hs%step_transition & Hr)%run_cons.
    cbn [revoke_free forallb]. intros [He Hes]%andb_true_iff Hi.
    apply negb_true_iff in He. eapply IH; [done..|].
    by eapply kept_transition.
Qed.
End generations.

Lemma bound_tokens_empty : bound_tokens empty_world.
Proof. constructor. Qed.

Lemma subject_address_expired h w :
  subject_address h w
  = if expired (WeakPtr.ptr_ h) (subjects w) then nullptr
    else WeakPtr.ptr_stored_ h.
Proof. unfold subject_address, expired. by destruct (live_block _ _). Qed.

Lemma gate_open NDEBUG h self answer w c token :
  WeakPtr.threading_checker_ h = Some c →
  checkers w !! c = Some token →
  use_count token ≠ 0%nat →
  pointee token ≠ ThreadingChecker_mutex no_thread →
  token_gate NDEBUG h self answer w
  = if NDEBUG || fst (CalledOnValidSequence self (pointee token))
    then Ok (answer, w) else Fault AssertionFailed.
Proof.
  intros Hc Ht Hn Hb. unfold token_gate. rewrite Hc.
  rewrite (proj2 (live_block_Some (Some c) (checkers w) token))
    by (exists c; done).
  destruct NDEBUG; [done|]. simpl.
  pose proof (check_bound self _ Hb) as Hs.
  destruct (CalledOnValidSequence self (pointee token)) as [ok token'].
  simpl in *. subst token'. destruct ok; [|done].
  by rewrite (alter_store_same _ _ _ Ht), with_checkers_id.
Qed.

Section generations_main.
Context {L : Layout}.
Variables (DEBUG NDEBUG : bool).

Lemma bound_reachable es w :
  run DEBUG NDEBUG es empty_world = Ok (tt, w) → bound_tokens w.
Proof.
  intros H. by destruct (steady_run DEBUG NDEBUG es _ _ _ H bound_tokens_empty).
Qed.

(** A handle issued before an invalidation never resolves afterwards. *)
Lemma revoked_forever es0 w0 i h w1 es1 w2 self w3 es2 w4 self' :
  run DEBUG NDEBUG es0 empty_world = Ok (tt, w0) →
  GetWeakPtr DEBUG NDEBUG i w0 = Ok (h, w1) →
  run DEBUG NDEBUG es1 w1 = Ok (tt, w2) →
  InvalidateWeakPtrs i self w2 = Ok (tt, w3) →
  run DEBUG NDEBUG es2 w3 = Ok (tt, w4) →
  WeakPtr_get NDEBUG h self' w4 = Ok (nullptr, w4).
Proof.
  intros H0%Inv_reachable Hg H1 Hi H2.
  pose proof (quiet_GetWeakPtr DEBUG NDEBUG i _ _ _ Hg) as Hq.
  apply GetWeakPtr_effect in Hg as (f & Hf & _ & _ & Hc & _).
  assert (issued w1 i (WeakPtrFactory.threading_ f)) as Hs.
  { right. apply (owns_quiet _ _ _ _ Hq). by exists f. }
  apply (Inv_quiet _ _ Hq) in H0.
  destruct (issued_run DEBUG NDEBUG _ _ _ _ _ H1 H0 Hs) as [HI2 Hs2].
  apply get_dead with (c := WeakPtrFactory.threading_ f); [done|].
  eapply dead_run; [done|].
  apply InvalidateWeakPtrs_effect in Hi as (g & Hg & Hcn & _).
  destruct Hs2 as [Hd|Ho].
  - unfold dead in *. rewrite Hcn.
    by apply lookup_alter_pred_zero, lookup_app_l_Some.
  - unfold dead. rewrite Hcn. destruct Ho as (g' & Hg' & <-).
    rewrite Hg in Hg'. injection Hg' as <-.
    eapply (owner_revoked _ i); [done|]. by exists g.
Qed.

(** A handle issued after an invalidation resolves to the subject for as
    long as the generation lasts and the subject lives. *)
Lemma fresh_generation es0 w0 i f self w1 es1 w2 h w3 es2 w4 self' :
  run DEBUG NDEBUG es0 empty_world = Ok (tt, w0) →
  factories w0 !! i = Some (Some f) →
  InvalidateWeakPtrs i self w0 = Ok (tt, w1) →
  run DEBUG NDEBUG es1 w1 = Ok (tt, w2) → revoke_free i es1 = true →
  GetWeakPtr DEBUG NDEBUG i w2 = Ok (h, w3) →
  run DEBUG NDEBUG es2 w3 = Ok (tt, w4) → revoke_free i es2 = true →
  WeakPtr_get NDEBUG h self' w4
  = if NDEBUG || fst (CalledOnValidSequence self'
                        (ThreadingChecker_new (WeakPtrFactory.Threading_ f) self))
    then Ok (if expired (WeakPtr.ptr_ h) (subjects w4) then nullptr
             else WeakPtrFactory.ptr_ f, w4)
    else Fault AssertionFailed.
Proof.
  intros H0 Hf Hi H1 Hr1 Hg H2 Hr2.
  pose proof (Inv_reachable _ _ _ _ H0) as HI0.
  pose proof (bound_reachable _ _ H0) as HB0.
  assert (run DEBUG NDEBUG [EvInvalidateWeakPtrs i self] w0 = Ok (tt, w1))
    as Hi1 by (cbn [run step]; unfold bind; by rewrite Hi).
  pose proof (Inv_run _ _ _ _ _ Hi1 HI0) as HI1.
  destruct (steady_run _ _ _ _ _ _ Hi1 HB0) as [HB1 _].
  apply InvalidateWeakPtrs_effect in Hi as (f0 & Hf0 & _ & Hfs & _ & Hp).
  rewrite Hf in Hf0. injection Hf0 as <-.
  set (c := length (counts w0)) in *.
  set (f' := WeakPtrFactory.mk _ _ c None _) in Hfs.
  assert (factories w1 !! i = Some (Some f')) as Hf1.
  { rewrite Hfs. apply list_lookup_insert_eq. by eapply lookup_lt_Some. }
  assert (payloads w1 !! c
          = Some (ThreadingChecker_new (WeakPtrFactory.Threading_ f) self))
    as Hp1.
  { assert (c = length (pointee <$> checkers w0)) as ->
      by (unfold c, counts; by rewrite !length_fmap).
    unfold payloads. rewrite Hp, lookup_app_r by done.
    by rewrite Nat.sub_diag. }
  pose proof (kept_run _ _ _ _ _ _ _ H1 Hr1 Hf1) as Hf2.
  pose proof (Inv_run _ _ _ _ _ H1 HI1) as HI2.
  destruct (steady_run _ _ _ _ _ _ H1 HB1) as [HB2 Hp12].
  pose proof (prefix_lookup_Some _ _ _ _ Hp1 Hp12) as Hp2.
  pose proof (quiet_GetWeakPtr DEBUG NDEBUG i _ _ _ Hg) as Hq.
  pose proof (steady_step DEBUG NDEBUG (EvGetWeakPtr i) w2 tt w3) as Hst.
  cbn [step] in Hst. unfold bind at 1 in Hst. rewrite Hg in Hst.
  destruct (Hst eq_refl HB2) as [HB3 Hp23].
  pose proof (prefix_lookup_Some _ _ _ _ Hp2 Hp23) as Hp3.
  pose proof (GetWeakPtr_stored _ _ _ _ _ _ Hg) as Hsto.
  apply GetWeakPtr_effect in Hg as (g & Hg & Hw3 & _ & Hc & Hraw & Hptr).
  rewrite Hf2 in Hg. injection Hg as <-.
  assert (factories w3 !! i = Some (Some f')) as Hf3
    by (destruct Hq as [_ ->]; done).
  pose proof (kept_run _ _ _ _ _ _ _ H2 Hr2 Hf3) as Hf4.
  pose proof (Inv_run _ _ _ _ _ H2 (Inv_quiet _ _ Hq HI2)) as HI4.
  destruct (steady_run _ _ _ _ _ _ H2 HB3) as [HB4 Hp34].
  pose proof (prefix_lookup_Some _ _ _ _ Hp3 Hp34) as Hp4.
  pose proof (objects_run _ _ _ _ _ _ H2) as Ho34.
  assert (counts w4 !! c = Some 1%nat) as Hc4
    by (apply HI4 with i; by exists f').
  unfold counts in Hc4. unfold payloads in Hp4.
  rewrite list_lookup_fmap in Hc4. rewrite list_lookup_fmap in Hp4.
  destruct (checkers w4 !! c) as [token|] eqn:Ht; [|done].
  injection Hc4 as Hc4. injection Hp4 as Hp4.
  rewrite WeakPtr_get_gate.
  rewrite (gate_open _ _ _ _ _ c token Hc Ht);
    [|lia | rewrite Hp4; apply ThreadingChecker_new_bound].
  rewrite Hp4. f_equal. f_equal. f_equal.
  rewrite subject_address_expired.
  destruct (expired _ _) eqn:He; [done|]. by rewrite Hsto, Hraw.
Qed.

(** C2 (as amended).  Invalidation is atomic with respect to generations,
    along every program run from the empty world.  A handle issued by a
    factory before one of its invalidations resolves to empty at every later
    moment, whatever happens in between and afterwards.  A handle issued by
    the factory after the invalidation, with no further invalidation or
    destruction of the factory on the way, resolves to the address the
    factory was given for as long as the subject lives, and to empty once it
    is gone, when the token is permissive, or assertions are compiled out,
    or the call is made on the sequence that ran the invalidation; with
    assertions and a checking token, the resolution is fatal on any other
    sequence. *)
Theorem invalidate_generation_atomic :
  (∀ es0 w0 i h w1 es1 w2 self w3 es2 w4 self',
     run DEBUG NDEBUG es0 empty_world = Ok (tt, w0) →
     GetWeakPtr DEBUG NDEBUG i w0 = Ok (h, w1) →
     run DEBUG NDEBUG es1 w1 = Ok (tt, w2) →
     InvalidateWeakPtrs i self w2 = Ok (tt, w3) →
     run DEBUG NDEBUG es2 w3 = Ok (tt, w4) →
     WeakPtr_get NDEBUG h self' w4 = Ok (nullptr, w4))
  ∧ (∀ es0 w0 i f self w1 es1 w2 h w3 es2 w4 self',
       run DEBUG NDEBUG es0 empty_world = Ok (tt, w0) →
       factories w0 !! i = Some (Some f) →
       InvalidateWeakPtrs i self w0 = Ok (tt, w1) →
       run DEBUG NDEBUG es1 w1 = Ok (tt, w2) → revoke_free i es1 = true →
       GetWeakPtr DEBUG NDEBUG i w2 = Ok (h, w3) →
       run DEBUG NDEBUG es2 w3 = Ok (tt, w4) → revoke_free i es2 = true →
       WeakPtr_get NDEBUG h self' w4
       = if NDEBUG
            || fst (CalledOnValidSequence self'
                      (ThreadingChecker_new (WeakPtrFactory.Threading_ f) self))
         then Ok (if expired (WeakPtr.ptr_ h) (subjects w4) then nullptr
                  else WeakPtrFactory.ptr_ f, w4)
         else Fault AssertionFailed).
Proof.
  split; intros; [by eapply revoked_forever | by eapply fresh_generation].
Qed.
End generations_main.

(** The value of a closed computation, its result and final world named. *)
Tactic Notation "evaluate" constr(m) "as" ident(a) ident(w) :=
  lazymatch eval vm_compute in m with
  | Ok (?x, ?y) => pose (a := x); pose (w := y)
  end.

(** C2, witness.  A subject at address 16 and its factory, built on sequence
    7 with a checking token and assertions compiled in: the handle issued
    before the invalidation resolves to empty afterwards, the handle issued
    after it resolves to 16. *)
Lemma invalidate_generation_atomic_witness :
  let es0 := [EvNewSubject 16 [1%nat];
              EvNewFactory [1%nat] Threading_mutex 16 7] in
  ∃ w0 h1 w1 w2 h2 w3,
    run true false es0 empty_world = Ok (tt, w0)
    ∧ GetWeakPtr true false 0 w0 = Ok (h1, w1)
    ∧ InvalidateWeakPtrs 0 7 w1 = Ok (tt, w2)
    ∧ GetWeakPtr true false 0 w2 = Ok (h2, w3)
    ∧ WeakPtr_get false h1 7 w3 = Ok (nullptr, w3)
    ∧ WeakPtr_get false h2 7 w3 = Ok (16, w3).
Proof.
  intros es0.
  destruct (invalidate_generation_atomic true false) as [before after].
  evaluate (run true false es0 empty_world) as u w0.
  evaluate (GetWeakPtr true false 0 w0) as h1 w1.
  evaluate (InvalidateWeakPtrs 0 7 w1) as u' w2.
  evaluate (GetWeakPtr true false 0 w2) as h2 w3.
  exists w0, h1, w1, w2, h2, w3.
  split; [reflexivity|]. split; [reflexivity|].
  split; [reflexivity|]. split; [reflexivity|]. split.
  - apply (before es0 w0 0%nat h1 w1 [] w1 7%nat w2 [EvGetWeakPtr 0] w3 7%nat);
      reflexivity.
  - apply (after (es0 ++ [EvGetWeakPtr 0]) w1 0%nat
             (WeakPtrFactory.mk [1%nat] Threading_mutex 0 (Some 0%nat) 16)
             7%nat w2 [] w2 h2 w3 [] w3 7%nat); reflexivity.
Defined.

(** C2, counterexample.  A subject at 16 and its factory, with a checking
    token and assertions compiled in.  The factory is invalidated on sequence
    8 and then issues a handle; the subject is alive and nothing else
    happens, yet the handle does not resolve to 16 from sequence 7: the new
    token was bound to sequence 8 when it was made, and the resolution is
    fatal.  From sequence 8 it resolves. *)
Lemma fresh_handle_rejected :
  ∃ w0 w1 h w2,
    run true false [EvNewSubject 16 [1%nat];
                    EvNewFactory [1%nat] Threading_mutex 16 7] empty_world
    = Ok (tt, w0)
    ∧ InvalidateWeakPtrs 0 8 w0 = Ok (tt, w1)
    ∧ GetWeakPtr true false 0 w1 = Ok (h, w2)
    ∧ subject_address h w2 = 16
    ∧ WeakPtr_get false h 7 w2 = Fault AssertionFailed
    ∧ WeakPtr_get false h 8 w2 = Ok (16, w2).
Proof.
  evaluate (run true false [EvNewSubject 16 [1%nat];
                            EvNewFactory [1%nat] Threading_mutex 16 7]
              empty_world) as u w0.
  evaluate (InvalidateWeakPtrs 0 8 w0) as u' w1.
  evaluate (GetWeakPtr true false 0 w1) as h w2.
  exists w0, w1, h, w2. repeat split; reflexivity.
Qed.

(** ** C3 and C4: the validity flag *)

Lemma lookup_snoc_length {A} (l : list A) x : (l ++ [x]) !! length l = Some x.
Proof. rewrite lookup_app_r by done. by rewrite Nat.sub_diag. Qed.

(** [HasRefs] only tells whether the flag is alive: the owner it takes to read
    the count makes the count at least two. *)
Lemma Flag_HasRefs_expired (flag : option nat) (w : World) :
  Flag_HasRefs flag w = Ok (negb (expired flag (flags w)), w).
Proof.
  unfold Flag_HasRefs, expired. unfold bind at 1. unfold lock_flag.
  destruct (live_block flag (flags w)) as [b|] eqn:Hl.
  - apply live_block_Some in Hl as Hl'. destruct Hl' as (r & -> & Hr & Hn).
    rewrite (lock_live _ _ _ Hl). munfold. cbn [flags with_flags].
    unfold retain at 1. rewrite list_lookup_alter_eq, Hr.
    cbn [fmap option_fmap option_map from_option use_count incr].
    destruct (use_count b) as [|n] eqn:Hu; [done|]. cbn [Nat.eqb].
    replace (0 =? S n)%nat with false by (by destruct n).
    rewrite (release_retain (Some r)). by destruct w.
  - rewrite (lock_expired _ _ Hl). by destruct w.
Qed.

Lemma WeakPtrFactory_new_eq T k ptr self w :
  WeakPtrFactory_new T k ptr self w
  = Ok (length (factories w),
        {| checkers := checkers w ++ [SharedBlock 1 (ThreadingChecker_new k self)];
           flags := flags w ++ [SharedBlock 1 ()];
           subjects := subjects w;
           factories :=
             factories w
             ++ [Some (WeakPtrFactory.mk T k (length (checkers w))
                         (Some (length (flags w))) ptr)] |}).
Proof. reflexivity. Qed.

Lemma bind_new_factory {A} T k ptr self (f : nat → M A) w :
  bind (WeakPtrFactory_new T k ptr self) f w
  = f (length (factories w))
      {| checkers := checkers w ++ [SharedBlock 1 (ThreadingChecker_new k self)];
         flags := flags w ++ [SharedBlock 1 ()];
         subjects := subjects w;
         factories :=
           factories w
           ++ [Some (WeakPtrFactory.mk T k (length (checkers w))
                       (Some (length (flags w))) ptr)] |}.
Proof. reflexivity. Qed.

(** C3.  [HasWeakPtrs] does not count the handles.  Asked right after the
    construction of its factory, in any world and before any handle exists,
    it answers [true]: the owner that [HasRefs] takes to read the count is
    counted with the factory's.  After an invalidation the factory holds no
    flag, and it answers [false] whether or not handles of the new generation
    are held. *)
Theorem HasWeakPtrs_counts_no_handle {L : Layout} (DEBUG NDEBUG : bool) (T : class)
    (k : Threading) (ptr : uintptr_t) (self : nat) (w : World) :
  (i ← WeakPtrFactory_new T k ptr self; HasWeakPtrs i) w
  = (i ← WeakPtrFactory_new T k ptr self; ret true) w
  ∧ (i ← WeakPtrFactory_new T k ptr self;
     InvalidateWeakPtrs i self;;
     h ← GetWeakPtr DEBUG NDEBUG i;
     HasWeakPtrs i) w
    = (i ← WeakPtrFactory_new T k ptr self;
       InvalidateWeakPtrs i self;;
       h ← GetWeakPtr DEBUG NDEBUG i;
       ret false) w.
Proof.
  split.
  - rewrite !(bind_new_factory _ _ _ _ _ w).
    unfold HasWeakPtrs, factory. unfold bind at 1.
    cbn [factories]. rewrite lookup_snoc_length, Flag_HasRefs_expired.
    cbn [WeakPtrFactory.ref_ flags]. unfold expired, live_block.
    by rewrite lookup_snoc_length.
  - rewrite !(bind_new_factory _ _ _ _ _ w).
    set (i := length (factories w)). set (w1 := Build_World _ _ _ _).
    unfold bind at 1 3.
    destruct (InvalidateWeakPtrs i self w1) as [[[] w2]|] eqn:Hi; [|done].
    unfold bind at 1 2.
    destruct (GetWeakPtr DEBUG NDEBUG i w2) as [[h w3]|] eqn:Hg; [|done].
    apply InvalidateWeakPtrs_effect in Hi as (f & Hf & _ & Hfs & _).
    apply GetWeakPtr_effect in Hg as (f' & Hf' & -> & _).
    rewrite Hfs, list_lookup_insert_eq in Hf' by (by eapply lookup_lt_Some).
    injection Hf' as <-. cbn [WeakPtrFactory.ref_ retain].
    rewrite with_flags_id.
    unfold HasWeakPtrs, factory. unfold bind at 1.
    rewrite Hfs, list_lookup_insert_eq by (by eapply lookup_lt_Some).
    by rewrite Flag_HasRefs_expired.
Qed.

Lemma lookup_block {A} (l : heap A) (n c : nat) (x : A) :
  (use_count <$> l) !! n = Some c → (pointee <$> l) !! n = Some x →
  l !! n = Some (SharedBlock c x).
Proof.
  rewrite !list_lookup_fmap. destruct (l !! n) as [[c' x']|]; [|done].
  by intros [= ->] [= ->].
Qed.

(** C4 (as amended).  Along every program run from the empty world,
    [InvalidateWeakPtrs] installs a new token and no flag: after the call the
    factory owns, alone, a token allocated by the call and bound to the
    calling sequence, and its [ref_] is null; every handle issued from then
    on is bound to the new token; every handle issued before the call
    resolves to empty at every later moment. *)
Theorem InvalidateWeakPtrs_installs_token {L : Layout} (DEBUG NDEBUG : bool) :
  (∀ es w i self w',
     run DEBUG NDEBUG es empty_world = Ok (tt, w) →
     InvalidateWeakPtrs i self w = Ok (tt, w') →
     ∃ f f',
       factories w !! i = Some (Some f)
       ∧ factories w' !! i = Some (Some f')
       ∧ WeakPtrFactory.threading_ f' = length (checkers w)
       ∧ checkers w' !! WeakPtrFactory.threading_ f'
         = Some (SharedBlock 1
                   (ThreadingChecker_new (WeakPtrFactory.Threading_ f) self))
       ∧ WeakPtrFactory.ref_ f' = None
       ∧ ∀ h w'', GetWeakPtr DEBUG NDEBUG i w' = Ok (h, w'') →
                  WeakPtr.threading_checker_ h
                  = Some (WeakPtrFactory.threading_ f'))
  ∧ (∀ es0 w0 i h w1 es1 w2 self w3 es2 w4 self',
       run DEBUG NDEBUG es0 empty_world = Ok (tt, w0) →
       GetWeakPtr DEBUG NDEBUG i w0 = Ok (h, w1) →
       run DEBUG NDEBUG es1 w1 = Ok (tt, w2) →
       InvalidateWeakPtrs i self w2 = Ok (tt, w3) →
       run DEBUG NDEBUG es2 w3 = Ok (tt, w4) →
       WeakPtr_get NDEBUG h self' w4 = Ok (nullptr, w4)).
Proof.
  split; [|intros; by eapply revoked_forever].
  intros es w i self w' HI%Inv_reachable
    (f & Hf & Hc & Hfs & _ & Hp)%InvalidateWeakPtrs_effect.
  eexists f, _. split; [done|].
  assert (factories w' !! i = Some (Some (WeakPtrFactory.mk (WeakPtrFactory.T f)
            (WeakPtrFactory.Threading_ f) (length (counts w)) None
            (WeakPtrFactory.ptr_ f)))) as Hf'.
  { rewrite Hfs. apply list_lookup_insert_eq. by eapply lookup_lt_Some. }
  split; [done|]. cbn [WeakPtrFactory.threading_ WeakPtrFactory.ref_].
  assert (length (counts w) = length (checkers w)) as Hlen
    by (unfold counts; by rewrite length_fmap).
  assert ((WeakPtrFactory.threading_ f < length (counts w))%nat) as Hlt
    by (apply (owns_lt _ i); [done | by exists f]).
  repeat split.
  - done.
  - apply lookup_block.
    + fold (counts w'). rewrite Hc, list_lookup_alter_ne by lia.
      apply lookup_snoc_length.
    + rewrite Hp, Hlen, <-(length_fmap pointee). apply lookup_snoc_length.
  - intros h w'' (g & Hg & _ & _ & Htc & _)%GetWeakPtr_effect.
    rewrite Hf' in Hg. by injection Hg as <-.
Qed.

(** C4, counterexample.  After the invalidation the factory holds no flag,
    and the handle it issues next carries none. *)
Lemma InvalidateWeakPtrs_leaves_no_flag :
  value (flag_after_invalidate empty_world) = Some (None, None).
Proof. reflexivity. Qed.

(** C4, witness.  A subject at 16 and its factory on sequence 7: the
    invalidation installs the token of index 1, no flag, and cuts off the
    handle issued before it. *)
Lemma InvalidateWeakPtrs_installs_token_witness :
  ∃ w0 h w1 w2,
    run true false [EvNewSubject 16 [1%nat];
                    EvNewFactory [1%nat] Threading_mutex 16 7] empty_world
    = Ok (tt, w0)
    ∧ GetWeakPtr true false 0 w0 = Ok (h, w1)
    ∧ InvalidateWeakPtrs 0 7 w1 = Ok (tt, w2)
    ∧ factories w2 !! 0%nat
      = Some (Some (WeakPtrFactory.mk [1%nat] Threading_mutex 1 None 16))
    ∧ checkers w2 !! 1%nat
      = Some (SharedBlock 1 (ThreadingChecker_mutex (running 7)))
    ∧ WeakPtr_get false h 7 w2 = Ok (nullptr, w2).
Proof.
  evaluate (run true false [EvNewSubject 16 [1%nat];
                            EvNewFactory [1%nat] Threading_mutex 16 7]
              empty_world) as u w0.
  evaluate (GetWeakPtr true false 0 w0) as h w1.
  evaluate (InvalidateWeakPtrs 0 7 w1) as u' w2.
  destruct (InvalidateWeakPtrs_installs_token true false) as [fresh before].
  destruct (fresh [EvNewSubject 16 [1%nat];
                   EvNewFactory [1%nat] Threading_mutex 16 7; EvGetWeakPtr 0]
              w1 0%nat 7%nat w2 eq_refl eq_refl)
    as (f & f' & Hf & Hf' & Ht & Hc & Hr & _).
  assert (f' = WeakPtrFactory.mk [1%nat] Threading_mutex 1 None 16) as ->
    by (vm_compute in Hf'; by injection Hf' as <-).
  assert (f = WeakPtrFactory.mk [1%nat] Threading_mutex 0 (Some 0%nat) 16) as ->
    by (vm_compute in Hf; by injection Hf as <-).
  exists w0, h, w1, w2.
  split; [reflexivity|]. split; [reflexivity|]. split; [reflexivity|].
  split; [exact Hf'|]. split; [exact Hc|].
  apply (before [EvNewSubject 16 [1%nat];
                 EvNewFactory [1%nat] Threading_mutex 16 7]
           w0 0%nat h w1 [] w1 7%nat w2 [] w2 7%nat); reflexivity.
Defined.

(** ** C6: comparison across types *)

(** C6.  When [T] is a proper base of [U], [equal] never looks at the other
    handle: it copies [this] and compares [this] with the copy. *)
Theorem WeakPtr_equal_base_ignores_other {L : Layout} (NDEBUG : bool) (T U : class)
    (this other other' : WeakPtr.t) (self : nat) (w : World) :
  is_same T U = false → is_base_of U T = false → is_base_of T U = true →
  WeakPtr_equal NDEBUG T U this other self w
  = WeakPtr_equal NDEBUG T U this other' self w.
Proof. intros Hs Hu Ht. unfold WeakPtr_equal. by rewrite Hs, Hu, Ht. Qed.

(** C6, witness.  The handle of the base class compares equal to the handle of
    the derived class although they resolve to 16 and to 32; asked the other
    way round, the comparison converts and answers [false]. *)
Lemma WeakPtr_equal_base_ignores_other_witness :
  ∃ ha hb w,
    base_and_derived empty_world = Ok ((ha, hb), w)
    ∧ WeakPtr_get false ha 0 w = Ok (16, w)
    ∧ WeakPtr_get false hb 0 w = Ok (32, w)
    ∧ WeakPtr_equal false [1%nat] [1%nat; 2%nat] ha hb 0 w
      = WeakPtr_equal false [1%nat] [1%nat; 2%nat] ha ha 0 w
    ∧ WeakPtr_equal false [1%nat] [1%nat; 2%nat] ha hb 0 w = Ok (true, w)
    ∧ WeakPtr_equal false [1%nat; 2%nat] [1%nat] hb ha 0 w = Ok (false, w).
Proof.
  evaluate (base_and_derived empty_world) as hs w.
  exists hs.1, hs.2, w. split; [reflexivity|].
  split; [reflexivity|]. split; [reflexivity|]. split.
  - apply (WeakPtr_equal_base_ignores_other false [1%nat] [1%nat; 2%nat]
             hs.1 hs.2 hs.1 0 w); reflexivity.
  - split; reflexivity.
Defined.

(** ** C7: erasing and recovering the type *)



(** ** C8: the address conversion *)

Lemma is_base_of_trans (A B C : class) :
  is_base_of A B = true → is_base_of B C = true → is_base_of A C = true.
Proof.
  unfold is_base_of. rewrite !bool_decide_eq_true. apply transitivity.
Qed.

Lemma subobject_at_Some {L : Layout} From p w o b :
  subobject_at From p w = Some (o, b) →
  subjects w !! o = Some b ∧ use_count b ≠ 0%nat
  ∧ From `prefix_of` obj_class (pointee b)
  ∧ obj_addr (pointee b) + offset (obj_class (pointee b)) From = p.
Proof.
  unfold subobject_at. intros (? & (? & ? & ?) & _)%list_find_Some. done.
Qed.

(** Converting to a base in two steps, or in one, reaches the same
    subobject. *)
Lemma offset_chain {L : Layout} (D C B : class) :
  offset D C + offset C B = offset D B.
Proof. unfold offset. lia. Qed.

(** C8.  On addresses, [uintptr_cast] between two class types is a checked
    conversion, and a plain passthrough everywhere else.  With the same type
    on both sides, or [void] on either side, the address is returned as it
    is, whatever it designates.  Between two different but related class
    types, for a pointer that designates the [From] subobject of a living
    object, the result is the converted address, that of the [To] subobject
    of the object, when the object is an instance of [To], and null when it
    is not; this holds in every layout of the classes. *)
Theorem uintptr_cast_checked {L : Layout} (From To : class) (ptr : uintptr_t) (w : World) :
  uintptr_cast Void Void ptr w = Ok (ptr, w)
  ∧ uintptr_cast Void (Class To) ptr w = Ok (ptr, w)
  ∧ uintptr_cast (Class From) Void ptr w = Ok (ptr, w)
  ∧ uintptr_cast (Class From) (Class From) ptr w = Ok (ptr, w)
  ∧ (∀ o b,
       From ≠ To →
       is_base_of From To || is_base_of To From = true →
       ptr ≠ nullptr →
       subobject_at From ptr w = Some (o, b) →
       uintptr_cast (Class From) (Class To) ptr w
       = Ok (if is_base_of To (obj_class (pointee b))
             then obj_addr (pointee b) + offset (obj_class (pointee b)) To
             else nullptr,
             w)).
Proof.
  repeat split; try done; [apply uintptr_cast_same|].
  intros o b Hne _ Hp Ho. unfold uintptr_cast, is_same.
  rewrite bool_decide_eq_false_2 by done. unfold dynamic_cast.
  rewrite decide_False by done.
  destruct (is_base_of To From) eqn:Hup; [|by rewrite Ho].
  apply subobject_at_Some in Ho as (_ & _ & Hwt & <-).
  assert (is_base_of From (obj_class (pointee b)) = true) as Hwt'
    by (by apply bool_decide_eq_true).
  rewrite (is_base_of_trans _ _ _ Hup Hwt'). unfold upcast.
  rewrite decide_False by done. by rewrite <- Z.add_assoc, offset_chain.
Qed.

(** C8, witness.  In the layout [stacked], the object of class [[1; 2]] at 16
    keeps its base [[1]] at 24.  The pointer 24 to the base converts to the
    class of the object and yields 16; the object is no instance of the
    sibling class [[1; 3]], and the conversion yields null; the pointer 16 to
    the object converts to the base and yields 24. *)
Lemma uintptr_cast_checked_witness :
  uintptr_cast (L := stacked) (Class [1%nat]) (Class [1%nat; 2%nat]) 24
    one_derived_object
  = Ok (16, one_derived_object)
  ∧ uintptr_cast (L := stacked) (Class [1%nat]) (Class [1%nat; 3%nat]) 24
      one_derived_object
    = Ok (nullptr, one_derived_object)
  ∧ uintptr_cast (L := stacked) (Class [1%nat; 2%nat]) (Class [1%nat]) 16
      one_derived_object
    = Ok (24, one_derived_object).
Proof.
  split; [|split].
  - apply (proj2 (proj2 (proj2 (proj2
             (uintptr_cast_checked (L := stacked) [1%nat] [1%nat; 2%nat] 24
                one_derived_object))))
             0%nat (SharedBlock 1 {| obj_addr := 16; obj_class := [1%nat; 2%nat] |}));
      [discriminate | reflexivity | discriminate | reflexivity].
  - apply (proj2 (proj2 (proj2 (proj2
             (uintptr_cast_checked (L := stacked) [1%nat] [1%nat; 3%nat] 24
                one_derived_object))))
             0%nat (SharedBlock 1 {| obj_addr := 16; obj_class := [1%nat; 2%nat] |}));
      [discriminate | reflexivity | discriminate | reflexivity].
  - apply (proj2 (proj2 (proj2 (proj2
             (uintptr_cast_checked (L := stacked) [1%nat; 2%nat] [1%nat] 16
                one_derived_object))))
             0%nat (SharedBlock 1 {| obj_addr := 16; obj_class := [1%nat; 2%nat] |}));
      [discriminate | reflexivity | discriminate | reflexivity].
Defined.

(** ** C9: resolution of an erased handle *)

Lemma WeakPtr_erase_effect {L : Layout} T h w e w' :
  WeakPtr_erase T h w = Ok (e, w') →
  e = h ∧ w' = with_flags (retain (WeakPtr.ref_ h) (flags w)) w.
Proof.
  unfold WeakPtr_erase, uintptr_cast. munfold. intros [= <- <-].
  by destruct h.
Qed.

(** C9.  An erased handle resolves to the address cached when the handle was
    issued, without consulting the subject.  The handle obtained by erasing
    the type of an issued handle keeps the token of the factory and the
    address the factory was given.  While that token is alive, and the call
    is made from a sequence the token accepts or assertions are compiled
    out, [WeakPtr<void>::get] returns the cached address and leaves the
    subject heap alone, also when the subject is gone and the typed [get] of
    the same handle returns empty.  Its result is the same on every subject
    heap. *)
Theorem erased_get_ignores_subject {L : Layout} (DEBUG NDEBUG : bool) :
  (∀ i T w0 h w1 e w2,
     GetWeakPtr DEBUG NDEBUG i w0 = Ok (h, w1) →
     WeakPtr_erase T h w1 = Ok (e, w2) →
     ∃ f, factories w0 !! i = Some (Some f)
        ∧ WeakPtr.threading_checker_ e = Some (WeakPtrFactory.threading_ f)
        ∧ WeakPtr.raw_ptr_ e = WeakPtrFactory.ptr_ f)
  ∧ (∀ e self w c token,
       WeakPtr.threading_checker_ e = Some c →
       checkers w !! c = Some token →
       use_count token ≠ 0%nat →
       NDEBUG || fst (CalledOnValidSequence self (pointee token)) = true →
       ∃ w', WeakPtr_void_get NDEBUG e self w = Ok (WeakPtr.raw_ptr_ e, w')
           ∧ subjects w' = subjects w
           ∧ (expired (WeakPtr.ptr_ e) (subjects w) = true →
              WeakPtr_get NDEBUG e self w = Ok (nullptr, w')))
  ∧ (∀ e self w s,
       value (WeakPtr_void_get NDEBUG e self (with_subjects s w))
       = value (WeakPtr_void_get NDEBUG e self w)).
Proof.
  split; [|split].
  - intros i T w0 h w1 e w2 (f & Hf & _ & _ & Hc & Hr & _)%GetWeakPtr_effect
      [-> _]%WeakPtr_erase_effect.
    by exists f.
  - intros e self w c token Hc Ht Hn Hok.
    rewrite WeakPtr_void_get_gate, WeakPtr_get_gate.
    unfold token_gate. rewrite Hc.
    rewrite (proj2 (live_block_Some (Some c) (checkers w) token))
      by (by exists c).
    assert (expired (WeakPtr.ptr_ e) (subjects w) = true →
            subject_address e w = nullptr) as Hgone.
    { rewrite subject_address_expired. by intros ->. }
    destruct NDEBUG.
    + exists w. split; [done|]. split; [done|]. by intros ->%Hgone.
    + simpl in Hok.
      destruct (CalledOnValidSequence self (pointee token)) as [ok token'].
      simpl in Hok. subst ok. eexists. split; [done|]. split; [done|].
      by intros ->%Hgone.
  - intros e self w s. rewrite !WeakPtr_void_get_gate. unfold token_gate.
    cbn [checkers with_subjects].
    destruct (WeakPtr.threading_checker_ e); [|done].
    destruct (live_block _ _); [|done]. destruct NDEBUG; [done|].
    by destruct (CalledOnValidSequence _ _) as [[] ?].
Qed.

(** C9, witness.  With its subject destroyed and its token alive, the erased
    handle still resolves to 16 on sequence 7, where the typed resolution
    gives empty. *)
Lemma erased_get_ignores_subject_witness :
  ∃ e w,
    erased_after_destruction empty_world = Ok (e, w)
    ∧ expired (WeakPtr.ptr_ e) (subjects w) = true
    ∧ WeakPtr_void_get false e 7 w = Ok (16, w)
    ∧ WeakPtr_get false e 7 w = Ok (nullptr, w).
Proof.
  evaluate (erased_after_destruction empty_world) as e w.
  exists e, w. split; [reflexivity|]. split; [reflexivity|].
  destruct (proj1 (proj2 (erased_get_ignores_subject true false)) e 7%nat w 0%nat
              (SharedBlock 1 (ThreadingChecker_mutex (running 7))))
    as (w' & Hv & _ & Hg); [reflexivity | reflexivity | discriminate | reflexivity |].
  assert (w' = w) as -> by (vm_compute in Hv; by injection Hv as <-).
  split; [exact Hv | exact (Hg eq_refl)].
Defined.

(** ** C10: hashing *)

(** A call other than [reset] and the assignment returns the handle it was
    made on. *)
Lemma call_keeps {L : Layout} NDEBUG m h w h' w' :
  call NDEBUG m h w = Ok (h', w') →
  match m with MReset | MAssign _ _ _ => True | _ => h' = h end.
Proof.
  destruct m; cbn [call]; try done;
    try (by intros (? & ? & _ & [= <- _])%bind_Ok).
  by intros [= <- _].
Qed.

(** A variable keeps its handle as long as no action overwrites it. *)
Lemma acts_keep {L : Layout} DEBUG NDEBUG l vars w vars' w' k h :
  acts DEBUG NDEBUG l vars w = Ok (vars', w') →
  vars !! k = Some h →
  forallb (λ a, negb (overwrites k a)) l = true →
  vars' !! k = Some h.
Proof.
  revert vars w. induction l as [|a l IH]; intros vars w.
  - by intros [= <- _].
  - cbn [acts forallb]. intros (vars1 & w1 & Ha & Hl)%bind_Ok Hk
      [Hn%negb_true_iff Hf]%andb_true_iff.
    apply (IH _ _ Hl); [|done]. clear IH Hl Hf.
    destruct a as [e|i|j m]; cbn [act] in Ha.
    + by apply bind_Ok in Ha as (? & ? & _ & [= <- _]).
    + apply bind_Ok in Ha as (h0 & ? & _ & [= <- _]).
      by apply lookup_app_l_Some.
    + destruct (vars !! j) as [hj|] eqn:Hj; [|done].
      apply bind_Ok in Ha as (h' & ? & Hc%call_keeps & [= <- _]).
      destruct (decide (j = k)) as [->|Hne].
      * rewrite Hk in Hj. injection Hj as <-.
        rewrite list_lookup_insert_eq by (by eapply lookup_lt_Some).
        destruct m; try (by rewrite Hc); cbn in Hn;
          by rewrite bool_decide_eq_true_2 in Hn.
      * by rewrite list_lookup_insert_ne.
Qed.

(** C10 (as amended).  The hash of a handle is its cached address.  For a
    handle issued by a factory it is the address the factory was given.  It
    changes only when the handle itself is overwritten, by [reset] or by an
    assignment: along every run of a program, whatever the factories, the
    owners of the subjects and the other calls on the handle do, a variable
    that is neither reset nor assigned to keeps its hash, also once its
    handle resolves to empty.  Hence two handles issued by factories of
    subjects at different addresses, once both resolve to empty after any
    run of events, compare equal and hash differently. *)
Theorem hash_is_cached_address {L : Layout} (DEBUG NDEBUG : bool) :
  (∀ h, hash h = WeakPtr.raw_ptr_ h)
  ∧ (∀ i w0 h w1,
       GetWeakPtr DEBUG NDEBUG i w0 = Ok (h, w1) →
       ∃ f, factories w0 !! i = Some (Some f) ∧ hash h = WeakPtrFactory.ptr_ f)
  ∧ (∀ l vars w vars' w' k h,
       acts DEBUG NDEBUG l vars w = Ok (vars', w') →
       vars !! k = Some h →
       forallb (λ a, negb (overwrites k a)) l = true →
       ∃ h', vars' !! k = Some h' ∧ hash h' = hash h)
  ∧ (∀ i j fi fj w0 h1 w1 h2 w2 es w3 self w4 w5,
       factories w0 !! i = Some (Some fi) →
       factories w1 !! j = Some (Some fj) →
       WeakPtrFactory.ptr_ fi ≠ WeakPtrFactory.ptr_ fj →
       GetWeakPtr DEBUG NDEBUG i w0 = Ok (h1, w1) →
       GetWeakPtr DEBUG NDEBUG j w1 = Ok (h2, w2) →
       run DEBUG NDEBUG es w2 = Ok (tt, w3) →
       WeakPtr_get NDEBUG h1 self w3 = Ok (nullptr, w4) →
       WeakPtr_get NDEBUG h2 self w4 = Ok (nullptr, w5) →
       WeakPtr_eq NDEBUG h1 h2 self w3 = Ok (true, w5)
       ∧ hash h1 = WeakPtrFactory.ptr_ fi
       ∧ hash h2 = WeakPtrFactory.ptr_ fj
       ∧ hash h1 ≠ hash h2).
Proof.
  split; [done|]. split; [|split].
  - intros i w0 h w1 (f & Hf & _ & _ & _ & Hr & _)%GetWeakPtr_effect.
    by exists f.
  - intros l vars w vars' w' k h Ha Hk Hl. exists h. split; [|done].
    by eapply acts_keep.
  - intros i j fi fj w0 h1 w1 h2 w2 es w3 self w4 w5 Hi Hj Hne
      (f1 & Hf1 & _ & _ & _ & Hr1 & _)%GetWeakPtr_effect
      (f2 & Hf2 & _ & _ & _ & Hr2 & _)%GetWeakPtr_effect _ Hg1 Hg2.
    rewrite Hi in Hf1. injection Hf1 as <-.
    rewrite Hj in Hf2. injection Hf2 as <-.
    unfold hash, WeakPtr.to_uintptr. rewrite Hr1, Hr2.
    repeat split; [|done].
    unfold WeakPtr_eq, bind. by rewrite Hg1, Hg2.
Qed.

(** C10, counterexample.  A handle issued for the subject at 16 and held in a
    variable hashes to 16; after [reset], which makes the handle empty, it
    hashes to 0: the hash did change during the lifetime of the handle. *)
Lemma hash_changes_on_reset :
  ∃ vars w vars' w',
    acts true false
      [Event (EvNewSubject 16 [1%nat]);
       Event (EvNewFactory [1%nat] Threading_mutex 16 7); Issue 0]
      [] empty_world = Ok (vars, w)
    ∧ hash <$> vars = [16]
    ∧ acts true false [Call 0 MReset] vars w = Ok (vars', w')
    ∧ hash <$> vars' = [0].
Proof.
  evaluate (acts true false
              [Event (EvNewSubject 16 [1%nat]);
               Event (EvNewFactory [1%nat] Threading_mutex 16 7); Issue 0]
              [] empty_world) as vars w.
  evaluate (acts true false [Call 0 MReset] vars w) as vars' w'.
  exists vars, w, vars', w'. repeat split; reflexivity.
Qed.

(** C10, witness.  The variable holds the handle of the subject at 16; its
    factory is invalidated, the subject destroyed and the handle resolved,
    to empty: the hash is still 16.  And the two handles of
    [two_cut_off_handles] resolve to empty and compare equal; their hashes
    are still 16 and 32. *)
Lemma hash_is_cached_address_witness :
  (∃ vars w vars' w' h',
     acts true false
       [Event (EvNewSubject 16 [1%nat]);
        Event (EvNewFactory [1%nat] Threading_mutex 16 7); Issue 0]
       [] empty_world = Ok (vars, w)
     ∧ hash <$> vars = [16]
     ∧ acts true false
         [Event (EvInvalidateWeakPtrs 0 7); Event (EvReleaseSubject 0);
          Call 0 (MGet 7)] vars w = Ok (vars', w')
     ∧ vars' !! 0%nat = Some h' ∧ hash h' = 16
     ∧ WeakPtr_get false h' 7 w' = Ok (nullptr, w'))
  ∧ ∃ h1 h2 w,
      two_cut_off_handles empty_world = Ok ((h1, h2), w)
      ∧ WeakPtr_get false h1 0 w = Ok (nullptr, w)
      ∧ WeakPtr_get false h2 0 w = Ok (nullptr, w)
      ∧ WeakPtr_eq false h1 h2 0 w = Ok (true, w)
      ∧ hash h1 = 16 ∧ hash h2 = 32 ∧ hash h1 ≠ hash h2.
Proof.
  split.
  - evaluate (acts true false
                [Event (EvNewSubject 16 [1%nat]);
                 Event (EvNewFactory [1%nat] Threading_mutex 16 7); Issue 0]
                [] empty_world) as vars w.
    evaluate (acts true false
                [Event (EvInvalidateWeakPtrs 0 7); Event (EvReleaseSubject 0);
                 Call 0 (MGet 7)] vars w) as vars' w'.
    destruct (proj1 (proj2 (proj2 (hash_is_cached_address true false)))
                [Event (EvInvalidateWeakPtrs 0 7); Event (EvReleaseSubject 0);
                 Call 0 (MGet 7)] vars w vars' w' 0%nat
                (WeakPtr.mk (Some 0%nat) (Some 0%nat) (Some 0%nat) 16 16)
                eq_refl eq_refl eq_refl) as (h' & Hh' & Hhash).
    exists vars, w, vars', w', h'.
    split; [reflexivity|]. split; [reflexivity|]. split; [reflexivity|].
    split; [exact Hh'|]. split; [exact Hhash|].
    vm_compute in Hh'. injection Hh' as <-. reflexivity.
  - evaluate (run false false
                [EvNewSubject 16 [1%nat]; EvNewSubject 32 [1%nat];
                 EvNewFactory [1%nat] Threading_void 16 0;
                 EvNewFactory [1%nat] Threading_void 32 0] empty_world)
      as u w0.
    evaluate (GetWeakPtr false false 0 w0) as h1 w1.
    evaluate (GetWeakPtr false false 1 w1) as h2 w2.
    evaluate (two_cut_off_handles empty_world) as hs w3.
    exists h1, h2, w3. split; [reflexivity|].
    split; [reflexivity|]. split; [reflexivity|].
    apply (proj2 (proj2 (proj2 (hash_is_cached_address false false)))
             0%nat 1%nat
             (WeakPtrFactory.mk [1%nat] Threading_void 0 (Some 0%nat) 16)
             (WeakPtrFactory.mk [1%nat] Threading_void 1 (Some 1%nat) 32)
             w0 h1 w1 h2 w2 [EvInvalidateWeakPtrs 0 0; EvReleaseSubject 1] w3
             0%nat w3 w3);
      first [reflexivity | discriminate].
Defined.

(** * Further properties of the header *)

(** ** When a resolution aborts *)

Lemma check_fails self c :
  fst (CalledOnValidSequence self c) = false ↔
  ∃ n, c = ThreadingChecker_mutex (running n) ∧ n ≠ self.
Proof.
  destruct c as [|[|n]]; simpl.
  - split; [done | by intros (? & ? & _)].
  - split; [done | by intros (? & ? & _)].
  - rewrite same_thread, bool_decide_eq_false. split.
    + intros Hn. by exists n.
    + by intros (? & [= <-] & ?).
Qed.

(** X1.  [get] has one way to fail, the assertion.  It aborts exactly when
    assertions are compiled in, the token is alive, of the checking kind,
    and records a sequence other than the caller's; in every other case it
    returns, also for a null, cut-off or forged handle.  With the permissive
    token, or with [NDEBUG], it always returns. *)
Theorem WeakPtr_get_aborts (NDEBUG : bool) (h : WeakPtr.t) (self : nat)
    (w : World) (f : fault) :
  WeakPtr_get NDEBUG h self w = Fault f ↔
  f = AssertionFailed ∧ NDEBUG = false
  ∧ ∃ c token n,
      WeakPtr.threading_checker_ h = Some c
      ∧ checkers w !! c = Some token
      ∧ use_count token ≠ 0%nat
      ∧ pointee token = ThreadingChecker_mutex (running n)
      ∧ n ≠ self.
Proof.
  rewrite WeakPtr_get_gate. unfold token_gate. split.
  - destruct (WeakPtr.threading_checker_ h) as [c|]; [|done].
    destruct (live_block _ _) as [token|] eqn:Hl; [|done].
    apply live_block_Some in Hl as (c' & [= <-] & Hc & Hn).
    destruct NDEBUG; [done|].
    destruct (CalledOnValidSequence self (pointee token)) as [ok token'] eqn:Hk.
    destruct ok; [done|]. intros [= <-].
    assert (fst (CalledOnValidSequence self (pointee token)) = false) as Hf
      by (by rewrite Hk).
    apply check_fails in Hf as (n & Hp & Hne).
    repeat split. by exists c, token, n.
  - intros (-> & -> & c & token & n & -> & Hc & Hn & Hp & Hne).
    rewrite (proj2 (live_block_Some (Some c) (checkers w) token))
      by (by exists c).
    rewrite Hp. simpl. rewrite same_thread. by rewrite bool_decide_eq_false_2.
Qed.

(** ** What a resolution touches *)

Lemma token_gate_with_flags NDEBUG h self answer fl w :
  token_gate NDEBUG h self answer (with_flags fl w)
  = match token_gate NDEBUG h self answer w with
    | Ok (a, w') => Ok (a, with_flags fl w')
    | Fault e => Fault e
    end.
Proof.
  unfold token_gate. cbn [checkers with_flags].
  destruct (WeakPtr.threading_checker_ h); [|done].
  destruct (live_block _ _); [|done]. destruct NDEBUG; [done|].
  by destruct (CalledOnValidSequence _ _) as [[] ?].
Qed.

Lemma WeakPtr_get_with_flags NDEBUG h self fl w :
  WeakPtr_get NDEBUG h self (with_flags fl w)
  = match WeakPtr_get NDEBUG h self w with
    | Ok (a, w') => Ok (a, with_flags fl w')
    | Fault e => Fault e
    end.
Proof. rewrite !WeakPtr_get_gate. apply token_gate_with_flags. Qed.

Lemma WeakPtr_get_keeps NDEBUG h self w a w' :
  WeakPtr_get NDEBUG h self w = Ok (a, w') →
  flags w' = flags w ∧ subjects w' = subjects w
  ∧ factories w' = factories w ∧ counts w' = counts w.
Proof.
  intros H. pose proof (quiet_WeakPtr_get NDEBUG h self w a w' H) as [Hc Hf].
  rewrite WeakPtr_get_gate in H.
  by apply token_gate_objects in H as [Hs Hfl].
Qed.

(** X2.  The validity flag is an observer only.  [get] run on any other flag
    heap gives the same outcome and hands that flag heap back untouched, and
    whenever it returns it has left the subjects, the factories and every
    [use_count] of a token as they were: all it may write is the sequence
    recorded in the token. *)
Theorem WeakPtr_get_ignores_flags (NDEBUG : bool) (h : WeakPtr.t) (self : nat)
    (fl : heap unit) (w : World) :
  WeakPtr_get NDEBUG h self (with_flags fl w)
  = match WeakPtr_get NDEBUG h self w with
    | Ok (a, w') => Ok (a, with_flags fl w')
    | Fault e => Fault e
    end
  ∧ match WeakPtr_get NDEBUG h self w with
    | Ok (_, w') => flags w' = flags w ∧ subjects w' = subjects w
                    ∧ factories w' = factories w ∧ counts w' = counts w
    | Fault _ => True
    end.
Proof.
  split; [apply WeakPtr_get_with_flags|].
  destruct (WeakPtr_get NDEBUG h self w) as [[a w']|] eqn:H; [|done].
  by apply WeakPtr_get_keeps in H.
Qed.

(** ** Resolving twice *)

Lemma check_again self c ok c' :
  CalledOnValidSequence self c = (ok, c') → ok = true →
  CalledOnValidSequence self c' = (true, c').
Proof.
  destruct c as [|[|n]]; simpl.
  - by intros [= <- <-].
  - intros [= <- <-] _. simpl. by rewrite same_thread, bool_decide_eq_true_2.
  - rewrite same_thread. intros [= <- <-] ->%bool_decide_eq_true. simpl.
    by rewrite same_thread, bool_decide_eq_true_2.
Qed.

Lemma alter_store_store {A} (x : A) (c : nat) (h : heap A) :
  alter (store x) c (alter (store x) c h) = alter (store x) c h.
Proof. rewrite list_alter_alter_eq. by apply list_alter_ext. Qed.

(** A second resolution right after a first one gives the same address and
    changes nothing more. *)
Lemma WeakPtr_get_again NDEBUG h self w a w' :
  WeakPtr_get NDEBUG h self w = Ok (a, w') →
  WeakPtr_get NDEBUG h self w' = Ok (a, w').
Proof.
  rewrite !WeakPtr_get_gate. unfold token_gate.
  destruct (WeakPtr.threading_checker_ h) as [c|]; [|by intros [= <- <-]].
  destruct (live_block (Some c) (checkers w)) as [token|] eqn:Hl.
  2:{ intros [= <- <-]. by rewrite Hl. }
  apply live_block_Some in Hl as Hl'. destruct Hl' as (? & [= <-] & Hc & Hn).
  destruct NDEBUG.
  { intros [= <- <-]. by rewrite Hl. }
  destruct (CalledOnValidSequence self (pointee token)) as [ok token'] eqn:Hk.
  destruct ok; [|done]. intros [= <- <-].
  cbn [checkers with_checkers].
  rewrite (proj2 (live_block_Some (Some c) _ (store token' token))).
  2:{ exists c. split; [done|]. split; [|done].
      by rewrite list_lookup_alter_eq, Hc. }
  cbn [pointee store]. rewrite (check_again _ _ _ _ Hk eq_refl).
  unfold subject_address, with_checkers. cbn [subjects checkers].
  by rewrite alter_store_store.
Qed.

Lemma WeakPtr_get_twice {A} NDEBUG h self (k : uintptr_t → uintptr_t → M A) w :
  (a ← WeakPtr_get NDEBUG h self; b ← WeakPtr_get NDEBUG h self; k a b) w
  = (a ← WeakPtr_get NDEBUG h self; k a a) w.
Proof.
  unfold bind at 1 3.
  destruct (WeakPtr_get NDEBUG h self w) as [[a w']|] eqn:Hg; [|done].
  unfold bind. by rewrite (WeakPtr_get_again _ _ _ _ _ _ Hg).
Qed.

(** X3.  [operator==] is reflexive wherever it returns: comparing a handle
    with itself resolves it and answers [true]; it aborts only where the
    resolution itself aborts. *)
Theorem WeakPtr_eq_reflexive (NDEBUG : bool) (h : WeakPtr.t) (self : nat)
    (w : World) :
  WeakPtr_eq NDEBUG h h self w = (WeakPtr_get NDEBUG h self;; ret true) w.
Proof.
  unfold WeakPtr_eq. rewrite WeakPtr_get_twice. unfold bind.
  destruct (WeakPtr_get NDEBUG h self w) as [[a w']|]; [|done].
  unfold ret. by rewrite bool_decide_eq_true_2.
Qed.

(** X4.  The strict dereference.  With assertions compiled in, [operator->]
    aborts on a handle that resolves to empty and otherwise returns the
    resolved address, so that it never returns null; with [NDEBUG] it is
    [get], and returns null for such a handle. *)
Theorem WeakPtr_arrow_strict (h : WeakPtr.t) (self : nat) (w : World) :
  WeakPtr_arrow false h self w
  = (a ← WeakPtr_get false h self;
     if decide (a = nullptr) then fail AssertionFailed else ret a) w
  ∧ WeakPtr_arrow true h self w = WeakPtr_get true h self w.
Proof.
  split; [|done]. unfold WeakPtr_arrow, assert_.
  unfold bind.
  destruct (WeakPtr_get false h self w) as [[a w']|] eqn:Hg; [|done].
  unfold ret at 1. destruct (decide (a = nullptr)) as [->|Hne].
  - by rewrite bool_decide_eq_true_2.
  - rewrite bool_decide_eq_false_2 by done. cbn [negb]. unfold ret at 1.
    by rewrite (WeakPtr_get_again _ _ _ _ _ _ Hg).
Qed.

(** ** Conversions between class types *)

(** A resolution reads three members of the handle only. *)
Lemma WeakPtr_get_members NDEBUG h h' self w :
  WeakPtr.threading_checker_ h' = WeakPtr.threading_checker_ h →
  WeakPtr.ptr_ h' = WeakPtr.ptr_ h →
  WeakPtr.ptr_stored_ h' = WeakPtr.ptr_stored_ h →
  WeakPtr_get NDEBUG h' self w = WeakPtr_get NDEBUG h self w.
Proof. intros Hc Hp Hs. unfold WeakPtr_get. by rewrite Hc, Hp, Hs. Qed.

Lemma uintptr_cast_result {L : Layout} F T p w r w' :
  uintptr_cast F T p w = Ok (r, w') → w' = w.
Proof.
  destruct F as [|F], T as [|T]; unfold uintptr_cast, ret;
    try (by intros [= <- <-]).
  destruct (is_same F T); [by intros [= <- <-]|].
  unfold dynamic_cast. destruct (decide (p = nullptr)); [by intros [= <- <-]|].
  destruct (is_base_of T F); [by intros [= <- <-]|].
  destruct (subobject_at F p w) as [[o b]|]; [|done].
  by intros [= <- <-].
Qed.

Lemma upcast_same {L : Layout} (C : class) (p : uintptr_t) : upcast C C p = p.
Proof.
  unfold upcast, offset. destruct (decide (p = nullptr)) as [->|]; [done|lia].
Qed.

(** Between a class and one of its bases, the address conversion is the
    conversion of the pointer. *)
Lemma uintptr_cast_up {L : Layout} (U T : class) (p : uintptr_t) (w : World) :
  is_base_of T U = true →
  uintptr_cast (Class U) (Class T) p w = Ok (upcast U T p, w).
Proof.
  intros Hb. unfold uintptr_cast, is_same, ret. case_bool_decide as Hs.
  - subst T. by rewrite upcast_same.
  - unfold dynamic_cast, upcast. rewrite Hb.
    by destruct (decide (p = nullptr)).
Qed.

Lemma WeakPtr_convert_up {L : Layout} U T h w :
  is_base_of T U = true →
  WeakPtr_convert U T h w
  = Ok (converted U T h, with_flags (retain (WeakPtr.ref_ h) (flags w)) w).
Proof.
  intros Hb. unfold WeakPtr_convert. rewrite Hb. munfold.
  by rewrite uintptr_cast_up.
Qed.




Lemma token_gate_map NDEBUG h self (f : uintptr_t → uintptr_t) answer w :
  f nullptr = nullptr →
  token_gate NDEBUG h self (f answer) w
  = (a ← token_gate NDEBUG h self answer; ret (f a)) w.
Proof.
  intros Hf. unfold bind, ret, token_gate.
  destruct (WeakPtr.threading_checker_ h); [|by rewrite Hf].
  destruct (live_block _ _); [|by rewrite Hf]. destruct NDEBUG; [done|].
  by destruct (CalledOnValidSequence _ _) as [[] ?].
Qed.

(** X6.  A conversion to a base never cuts a handle off.  In every world and
    from every sequence the converted handle resolves as the original does:
    it aborts where the original aborts, is empty where the original is
    empty, and otherwise yields the address the original yields, moved to
    the subobject of the base. *)
Theorem WeakPtr_convert_keeps_subject {L : Layout} (NDEBUG : bool)
    (U T : class) (h h' : WeakPtr.t) (w w' : World) :
  is_base_of T U = true →
  WeakPtr_convert U T h w = Ok (h', w') →
  ∀ self v,
    WeakPtr_get NDEBUG h' self v
    = (a ← WeakPtr_get NDEBUG h self; ret (upcast U T a)) v.
Proof.
  intros Hb Hc self v. rewrite (WeakPtr_convert_up _ _ _ _ Hb) in Hc.
  injection Hc as <- <-. rewrite WeakPtr_get_gate.
  replace (subject_address (converted U T h) v)
    with (upcast U T (subject_address h v)).
  2:{ unfold subject_address, converted. cbn.
      by destruct (live_block _ _). }
  rewrite (token_gate_map _ _ _ (upcast U T)) by done.
  unfold bind. change (token_gate NDEBUG (converted U T h) self)
    with (token_gate NDEBUG h self). by rewrite <- WeakPtr_get_gate.
Qed.

(** X6, witness.  In the layout [stacked] the handle of the subject of class
    [[1; 2]] at 32 resolves to 32; converted to the base [[1]] it resolves to
    the base of the same subject, at 40. *)
Lemma WeakPtr_convert_keeps_subject_witness :
  ∃ ha hb w h' w',
    base_and_derived (L := stacked) empty_world = Ok ((ha, hb), w)
    ∧ WeakPtr_convert (L := stacked) [1%nat; 2%nat] [1%nat] hb w
      = Ok (h', w')
    ∧ WeakPtr_get false hb 0 w' = Ok (32, w')
    ∧ WeakPtr_get false h' 0 w' = Ok (40, w').
Proof.
  evaluate (base_and_derived (L := stacked) empty_world) as hs w.
  evaluate (WeakPtr_convert (L := stacked) [1%nat; 2%nat] [1%nat] hs.2 w)
    as h' w'.
  exists hs.1, hs.2, w, h', w'.
  split; [reflexivity|]. split; [reflexivity|]. split; [reflexivity|].
  exact (WeakPtr_convert_keeps_subject (L := stacked) false
           [1%nat; 2%nat] [1%nat] hs.2 h' w w' eq_refl eq_refl 0%nat w').
Defined.

Lemma subobject_at_with_flags {L : Layout} F a fl w :
  subobject_at F a (with_flags fl w) = subobject_at F a w.
Proof. reflexivity. Qed.







(** ** The checker, moved and detached *)

(** X9.  The move assignment of the checking variant.  With assertions it
    succeeds only when each of the two checkers is unbound or bound to the
    caller, and then leaves both bound to the caller: the assertion on
    [other] binds it before its sequence is taken over.  With [NDEBUG] the
    recorded sequence is copied as it is, be it foreign or none. *)
Theorem ThreadingChecker_move_assign_binds (self : nat) (a b : thread_id) :
  ThreadingChecker_move_assign false self
    (ThreadingChecker_mutex a) (ThreadingChecker_mutex b)
  = (if bool_decide ((a = no_thread ∨ a = running self)
                     ∧ (b = no_thread ∨ b = running self))
     then Ok (ThreadingChecker_mutex (running self),
              ThreadingChecker_mutex (running self))
     else Fault AssertionFailed)
  ∧ ThreadingChecker_move_assign true self
      (ThreadingChecker_mutex a) (ThreadingChecker_mutex b)
    = Ok (ThreadingChecker_mutex b, ThreadingChecker_mutex b).
Proof.
  split; [|done]. unfold ThreadingChecker_move_assign.
  destruct a as [|n], b as [|m]; cbn [CalledOnValidSequence decide];
    rewrite ?same_thread; unfold this_thread_get_id; simpl;
    repeat case_bool_decide; subst; try done; exfalso;
    intuition (congruence || eauto).
Qed.

(** X10.  [HijackThread] hands a subject over to whichever sequence resolves
    next.  After the call, a handle of the subject resolves from any sequence
    [self] without a check; that resolution binds the token to [self], and a
    resolution from any other sequence, the former one included, is then
    fatal. *)
Theorem HijackThread_rebinds (s : SupportsWeakPtr.t) (h : WeakPtr.t)
    (self other : nat) (w : World) (token : shared_block ThreadingChecker)
    (t : thread_id) :
  WeakPtr.threading_checker_ h = Some (SupportsWeakPtr.threading_ s) →
  checkers w !! SupportsWeakPtr.threading_ s = Some token →
  use_count token ≠ 0%nat →
  pointee token = ThreadingChecker_mutex t →
  other ≠ self →
  ∃ w1 w2,
    HijackThread s w = Ok (tt, w1)
    ∧ WeakPtr_get false h self w1 = Ok (subject_address h w, w2)
    ∧ payloads w2 !! SupportsWeakPtr.threading_ s
      = Some (ThreadingChecker_mutex (running self))
    ∧ WeakPtr_get false h self w2 = Ok (subject_address h w, w2)
    ∧ WeakPtr_get false h other w2 = Fault AssertionFailed.
Proof.
  intros Hc Ht Hn Hp Hne. set (c := SupportsWeakPtr.threading_ s) in *.
  unfold HijackThread, checker_DetachFromSequence. fold c. rewrite Ht, Hp.
  cbn [DetachFromSequence].
  set (w1 := with_checkers _ w).
  assert (WeakPtr_get false h self w1
          = Ok (subject_address h w,
                with_checkers
                  (alter (store (ThreadingChecker_mutex (running self))) c
                     (checkers w1)) w1)) as H1.
  { rewrite WeakPtr_get_gate. unfold token_gate. rewrite Hc.
    rewrite (proj2 (live_block_Some (Some c) (checkers w1)
                      (store (ThreadingChecker_mutex no_thread) token))).
    - done.
    - exists c. split; [done|]. split; [|done]. unfold w1.
      cbn [checkers with_checkers]. by rewrite list_lookup_alter_eq, Ht. }
  eexists w1, _. split; [done|]. split; [exact H1|].
  split.
  { unfold payloads, w1. cbn [checkers with_checkers].
    by rewrite list_lookup_fmap, !list_lookup_alter_eq, Ht. }
  split; [by apply WeakPtr_get_again in H1|].
  rewrite WeakPtr_get_gate. unfold token_gate. rewrite Hc.
  rewrite (proj2 (live_block_Some (Some c) _
                    (store (ThreadingChecker_mutex (running self))
                       (store (ThreadingChecker_mutex no_thread) token)))).
  - cbn [pointee store CalledOnValidSequence decide]. simpl.
    rewrite same_thread. by rewrite bool_decide_eq_false_2 by done.
  - exists c. split; [done|]. split; [|done]. unfold w1.
    cbn [checkers with_checkers]. by rewrite !list_lookup_alter_eq, Ht.
Qed.

(** X10, witness.  The subject was built on sequence 7; after [HijackThread],
    sequence 8 resolves its handle to 16 and sequence 7 is rejected. *)
Lemma HijackThread_rebinds_witness :
  ∃ s h w w1 w2,
    supported_subject empty_world = Ok ((s, h), w)
    ∧ WeakPtr_get false h 8 w = Fault AssertionFailed
    ∧ HijackThread s w = Ok (tt, w1)
    ∧ WeakPtr_get false h 8 w1 = Ok (16, w2)
    ∧ WeakPtr_get false h 7 w2 = Fault AssertionFailed.
Proof.
  evaluate (supported_subject empty_world) as sh w.
  destruct (HijackThread_rebinds sh.1 sh.2 8 7 w
              (SharedBlock 1 (ThreadingChecker_mutex (running 7))) (running 7))
    as (w1 & w2 & H1 & H2 & _ & _ & H3);
    [reflexivity | reflexivity | discriminate | reflexivity | discriminate |].
  exists sh.1, sh.2, w, w1, w2.
  split; [reflexivity|]. split; [reflexivity|]. split; [exact H1|].
  split; [exact H2 | exact H3].
Defined.

(** ** Issuing handles *)

Lemma release_retain_subjects o w :
  with_subjects
    (release (Some o) (subjects (with_subjects (retain (Some o) (subjects w)) w)))
    (with_subjects (retain (Some o) (subjects w)) w) = w.
Proof.
  cbn [subjects with_subjects]. rewrite release_retain. by destruct w.
Qed.

(** X11.  [AsWeakPtr], called on a living subject, issues a handle that holds
    the token and the flag of the subject's mixin, weakly references the
    subject and caches its address.  The flag gains one owner; the three
    temporaries give back what they took, so that no other count changes. *)
Theorem AsWeakPtr_issues {L : Layout} (DEBUG NDEBUG : bool) (T : class)
    (s : SupportsWeakPtr.t) (this : uintptr_t) (w : World) (o : nat)
    (b : shared_block Object) :
  this ≠ nullptr →
  object_at this w = Some (o, b) →
  AsWeakPtr DEBUG NDEBUG T s this w
  = Ok (WeakPtr.mk (SupportsWeakPtr.ref_ s)
          (Some (SupportsWeakPtr.threading_ s)) (Some o) this this,
        with_flags (retain (SupportsWeakPtr.ref_ s) (flags w)) w).
Proof.
  intros Hn Ho. unfold AsWeakPtr, StaticAsWeakPtr.
  assert (assert_ NDEBUG (ret (bool_decide (this ≠ nullptr))) w = Ok (tt, w))
    as Ha.
  { unfold assert_, bind, ret. destruct NDEBUG; [done|].
    by rewrite bool_decide_eq_true_2. }
  unfold bind at 1 2. rewrite Ha.
  rewrite (bool_decide_eq_false_2 (this = nullptr)), andb_false_r by done.
  unfold shared_from_this. rewrite Ho.
  apply object_at_Some in Ho as (Ho & Hc & Hb).
  unfold WeakPtr_ctor. munfold. cbv zeta.
  cbn [checkers flags subjects factories with_checkers with_flags
       with_subjects retain].
  rewrite uintptr_cast_same. rewrite list_lookup_alter_eq, Ho.
  cbn [fmap option_fmap option_map from_option pointee incr]. rewrite Hb.
  assert (∀ v, assert_ NDEBUG (ret true) v = Ok (tt, v)) as ->
    by (intros v; unfold assert_, bind, ret; by destruct NDEBUG).
  cbn [checkers flags subjects factories with_checkers with_flags
       with_subjects release].
  rewrite !alter_decr_incr, (release_retain (SupportsWeakPtr.ref_ s)).
  by destruct w.
Qed.

(** X11, witness.  The handle of the subject at 16 resolves to 16 on the
    sequence that built the subject. *)
Lemma AsWeakPtr_issues_witness :
  ∃ o s w h,
    (o ← new_subject 16 [1%nat];
     s ← SupportsWeakPtr_new Threading_mutex 7; ret (o, s)) empty_world
    = Ok ((o, s), w)
    ∧ AsWeakPtr true false [1%nat] s 16 w
      = Ok (h, with_flags (retain (SupportsWeakPtr.ref_ s) (flags w)) w)
    ∧ WeakPtr_get false h 7 w = Ok (16, w).
Proof.
  evaluate ((o ← new_subject 16 [1%nat];
             s ← SupportsWeakPtr_new Threading_mutex 7; ret (o, s))
              empty_world) as os w.
  eexists os.1, os.2, w, _. split; [reflexivity|]. split.
  - apply (AsWeakPtr_issues true false [1%nat] os.2 16 w 0%nat
             (SharedBlock 1 {| obj_addr := 16; obj_class := [1%nat] |}));
      [discriminate | reflexivity].
  - reflexivity.
Defined.

(** X12.  A factory that was given a null pointer.  With assertions,
    [GetWeakPtr] aborts.  With [NDEBUG] and without [DEBUG], it issues a
    handle that holds the token and the flag of the factory and no subject.
    With both symbols defined, the null test is compiled out and
    [shared_from_this] is called through the null pointer. *)
Theorem GetWeakPtr_of_null {L : Layout} (DEBUG : bool) (i : nat) (f : WeakPtrFactory.t)
    (w : World) :
  factories w !! i = Some (Some f) →
  WeakPtrFactory.ptr_ f = nullptr →
  object_at nullptr w = None →
  GetWeakPtr DEBUG false i w = Fault AssertionFailed
  ∧ GetWeakPtr true true i w = Fault UndefinedBehaviour
  ∧ GetWeakPtr false true i w
    = Ok (WeakPtr.mk (WeakPtrFactory.ref_ f)
            (Some (WeakPtrFactory.threading_ f)) None nullptr nullptr,
          with_flags (retain (WeakPtrFactory.ref_ f) (flags w)) w).
Proof.
  intros Hf Hp Ho.
  assert (factory i w = Ok (f, w)) as Hi by (unfold factory; by rewrite Hf).
  unfold GetWeakPtr, StaticAsWeakPtr. split; [|split].
  - unfold bind at 1. rewrite Hi, Hp.
    unfold assert_, bind, ret, fail. by rewrite bool_decide_eq_false_2 by auto.
  - unfold bind at 1. rewrite Hi, Hp.
    unfold assert_, bind, ret, shared_from_this. cbn [negb andb].
    by rewrite Ho.
  - unfold bind at 1. rewrite Hi, Hp.
    unfold WeakPtr_ctor, assert_. rewrite bool_decide_eq_true_2 by done.
    munfold. cbv zeta. cbn [negb andb]. rewrite uintptr_cast_same.
    cbn [checkers flags subjects factories with_checkers with_flags
         with_subjects release retain].
    rewrite !alter_decr_incr, (release_retain (WeakPtrFactory.ref_ f)).
    by destruct w.
Qed.

(** X12, witness.  The handle issued for the null pointer resolves to empty
    and compares equal to the null handle. *)
Lemma GetWeakPtr_of_null_witness :
  ∃ h w,
    GetWeakPtr false false 0 factory_of_null = Fault AssertionFailed
    ∧ GetWeakPtr true true 0 factory_of_null = Fault UndefinedBehaviour
    ∧ GetWeakPtr false true 0 factory_of_null = Ok (h, w)
    ∧ WeakPtr_get true h 0 w = Ok (nullptr, w)
    ∧ WeakPtr_eq true h WeakPtr.null 0 w = Ok (true, w).
Proof.
  destruct (GetWeakPtr_of_null false 0
              (WeakPtrFactory.mk [1%nat] Threading_void 0 (Some 0%nat) nullptr)
              factory_of_null) as (H1 & H2 & H3); [reflexivity..|].
  eexists _, _. split; [exact H1|]. split; [exact H2|]. split; [exact H3|].
  split; reflexivity.
Defined.

(** ** Handles come and go *)

(** X13.  Issuing a handle and destroying it is a round trip: the world is
    exactly as before, whatever the factory and the state of its subject.
    So is copying a handle and destroying the copy. *)
Theorem GetWeakPtr_then_destroy {L : Layout} (DEBUG NDEBUG : bool) (i : nat)
    (h : WeakPtr.t) (w w' : World) :
  GetWeakPtr DEBUG NDEBUG i w = Ok (h, w') →
  WeakPtr_destroy h w' = Ok (tt, w)
  ∧ (c ← WeakPtr_copy h; WeakPtr_destroy c) w' = Ok (tt, w').
Proof.
  intros (f & _ & -> & Hr & _)%GetWeakPtr_effect.
  unfold WeakPtr_destroy, WeakPtr_copy. munfold. rewrite Hr.
  cbn [flags with_flags]. rewrite !release_retain.
  by destruct w.
Qed.

(** X13, witness.  Issuing the handle changes the world, by one owner of the
    flag; destroying the handle restores it. *)
Lemma GetWeakPtr_then_destroy_witness :
  ∃ u w h w',
    run true false [EvNewSubject 16 [1%nat];
                    EvNewFactory [1%nat] Threading_mutex 16 7] empty_world
    = Ok (u, w)
    ∧ GetWeakPtr true false 0 w = Ok (h, w')
    ∧ w' ≠ w
    ∧ WeakPtr_destroy h w' = Ok (tt, w).
Proof.
  evaluate (run true false [EvNewSubject 16 [1%nat];
                            EvNewFactory [1%nat] Threading_mutex 16 7]
              empty_world) as u w.
  evaluate (GetWeakPtr true false 0 w) as h w'.
  exists u, w, h, w'. split; [reflexivity|]. split; [reflexivity|].
  split; [discriminate|].
  apply (GetWeakPtr_then_destroy true false 0 h w w'). reflexivity.
Defined.

(** ** Generations, from the first to the last *)

Section lifetimes.
Context {L : Layout}.
Variables (DEBUG NDEBUG : bool).

(** The handles of the current generation of a factory, from any world that
    satisfies the invariants. *)
Lemma current_generation w1 i f tok es1 w2 h w3 es2 w4 self' :
  Inv w1 → bound_tokens w1 →
  factories w1 !! i = Some (Some f) →
  payloads w1 !! WeakPtrFactory.threading_ f = Some tok →
  run DEBUG NDEBUG es1 w1 = Ok (tt, w2) → revoke_free i es1 = true →
  GetWeakPtr DEBUG NDEBUG i w2 = Ok (h, w3) →
  run DEBUG NDEBUG es2 w3 = Ok (tt, w4) → revoke_free i es2 = true →
  WeakPtr_get NDEBUG h self' w4
  = if NDEBUG || fst (CalledOnValidSequence self' tok)
    then Ok (if expired (WeakPtr.ptr_ h) (subjects w4) then nullptr
             else WeakPtrFactory.ptr_ f, w4)
    else Fault AssertionFailed.
Proof.
  intros HI1 HB1 Hf1 Hp1 H1 Hr1 Hg H2 Hr2.
  set (c := WeakPtrFactory.threading_ f) in *.
  pose proof (kept_run _ _ _ _ _ _ _ H1 Hr1 Hf1) as Hf2.
  pose proof (Inv_run _ _ _ _ _ H1 HI1) as HI2.
  destruct (steady_run _ _ _ _ _ _ H1 HB1) as [HB2 Hp12].
  pose proof (prefix_lookup_Some _ _ _ _ Hp1 Hp12) as Hp2.
  pose proof (quiet_GetWeakPtr DEBUG NDEBUG i _ _ _ Hg) as Hq.
  pose proof (steady_step DEBUG NDEBUG (EvGetWeakPtr i) w2 tt w3) as Hst.
  cbn [step] in Hst. unfold bind at 1 in Hst. rewrite Hg in Hst.
  destruct (Hst eq_refl HB2) as [HB3 Hp23].
  pose proof (prefix_lookup_Some _ _ _ _ Hp2 Hp23) as Hp3.
  pose proof (GetWeakPtr_stored _ _ _ _ _ _ Hg) as Hsto.
  apply GetWeakPtr_effect in Hg as (g & Hg & Hw3 & _ & Hc & Hraw & Hptr).
  rewrite Hf2 in Hg. injection Hg as <-.
  assert (factories w3 !! i = Some (Some f)) as Hf3
    by (destruct Hq as [_ ->]; done).
  pose proof (kept_run _ _ _ _ _ _ _ H2 Hr2 Hf3) as Hf4.
  pose proof (Inv_run _ _ _ _ _ H2 (Inv_quiet _ _ Hq HI2)) as HI4.
  destruct (steady_run _ _ _ _ _ _ H2 HB3) as [HB4 Hp34].
  pose proof (prefix_lookup_Some _ _ _ _ Hp3 Hp34) as Hp4.
  pose proof (objects_run _ _ _ _ _ _ H2) as Ho34.
  assert (counts w4 !! c = Some 1%nat) as Hc4
    by (apply HI4 with i; by exists f).
  assert (tok ≠ ThreadingChecker_mutex no_thread) as Hbound.
  { unfold bound_tokens in HB4. rewrite Forall_lookup in HB4.
    by apply (HB4 c). }
  unfold counts in Hc4. unfold payloads in Hp4.
  rewrite list_lookup_fmap in Hc4. rewrite list_lookup_fmap in Hp4.
  destruct (checkers w4 !! c) as [token|] eqn:Ht; [|done].
  injection Hc4 as Hc4. injection Hp4 as Hp4.
  rewrite WeakPtr_get_gate.
  rewrite (gate_open _ _ _ _ _ c token Hc Ht); [|lia | by rewrite Hp4].
  rewrite Hp4. f_equal. f_equal. f_equal.
  rewrite subject_address_expired.
  destruct (expired _ _) eqn:He; [done|]. by rewrite Hsto, Hraw.
Qed.

(** X14.  The first generation behaves as every later one.  Along any run
    from the empty world, a handle issued by a factory that has been neither
    invalidated nor destroyed since its construction resolves to the address
    the factory was given for as long as the subject lives, and to empty once
    it is gone; with assertions and a checking token this holds on the
    sequence that constructed the factory, and the resolution is fatal on any
    other. *)
Theorem first_generation_resolves es0 w0 T k ptr self i w1 es1 w2 h w3 es2 w4
    self' :
  run DEBUG NDEBUG es0 empty_world = Ok (tt, w0) →
  WeakPtrFactory_new T k ptr self w0 = Ok (i, w1) →
  run DEBUG NDEBUG es1 w1 = Ok (tt, w2) → revoke_free i es1 = true →
  GetWeakPtr DEBUG NDEBUG i w2 = Ok (h, w3) →
  run DEBUG NDEBUG es2 w3 = Ok (tt, w4) → revoke_free i es2 = true →
  WeakPtr_get NDEBUG h self' w4
  = if NDEBUG || fst (CalledOnValidSequence self' (ThreadingChecker_new k self))
    then Ok (if expired (WeakPtr.ptr_ h) (subjects w4) then nullptr else ptr,
             w4)
    else Fault AssertionFailed.
Proof.
  intros H0 Hn H1 Hr1 Hg H2 Hr2.
  assert (run DEBUG NDEBUG [EvNewFactory T k ptr self] w0 = Ok (tt, w1))
    as Hn1 by (cbn [run step]; unfold bind; by rewrite Hn).
  pose proof (Inv_run _ _ _ _ _ Hn1 (Inv_reachable _ _ _ _ H0)) as HI1.
  destruct (steady_run _ _ _ _ _ _ Hn1 (bound_reachable _ _ _ _ H0))
    as [HB1 _].
  rewrite WeakPtrFactory_new_eq in Hn. injection Hn as Hi Hw.
  set (f := WeakPtrFactory.mk T k (length (checkers w0))
              (Some (length (flags w0))) ptr).
  apply (current_generation w1 i f (ThreadingChecker_new k self)
           es1 w2 h w3 es2 w4 self'); try done.
  - rewrite <- Hw, <- Hi. cbn [factories]. apply lookup_snoc_length.
  - rewrite <- Hw. unfold payloads. cbn [checkers WeakPtrFactory.threading_ f].
    rewrite fmap_app, lookup_app_r by (by rewrite length_fmap).
    by rewrite length_fmap, Nat.sub_diag.
Qed.
(** X15.  Destroying a factory cuts its handles off for good.  Along any run
    from the empty world, a handle issued by a factory resolves to empty at
    every moment after the destruction of the factory, on every sequence and
    without a check, although the subject may still be alive. *)
Theorem destroyed_forever es0 w0 i h w1 es1 w2 w3 es2 w4 self' :
  run DEBUG NDEBUG es0 empty_world = Ok (tt, w0) →
  GetWeakPtr DEBUG NDEBUG i w0 = Ok (h, w1) →
  run DEBUG NDEBUG es1 w1 = Ok (tt, w2) →
  WeakPtrFactory_delete i w2 = Ok (tt, w3) →
  run DEBUG NDEBUG es2 w3 = Ok (tt, w4) →
  WeakPtr_get NDEBUG h self' w4 = Ok (nullptr, w4).
Proof.
  intros H0%Inv_reachable Hg H1 Hd H2.
  pose proof (quiet_GetWeakPtr DEBUG NDEBUG i _ _ _ Hg) as Hq.
  apply GetWeakPtr_effect in Hg as (f & Hf & _ & _ & Hc & _).
  assert (issued w1 i (WeakPtrFactory.threading_ f)) as Hs.
  { right. apply (owns_quiet _ _ _ _ Hq). by exists f. }
  apply (Inv_quiet _ _ Hq) in H0.
  destruct (issued_run DEBUG NDEBUG _ _ _ _ _ H1 H0 Hs) as [HI2 Hs2].
  apply get_dead with (c := WeakPtrFactory.threading_ f); [done|].
  eapply dead_run; [done|].
  apply WeakPtrFactory_delete_effect in Hd as (g & Hg & Hcn & _).
  unfold dead in *. rewrite Hcn. destruct Hs2 as [Hd|Ho].
  - by apply lookup_alter_pred_zero.
  - destruct Ho as (g' & Hg' & <-). rewrite Hg in Hg'. injection Hg' as <-.
    rewrite <- (app_nil_r (counts w2)).
    eapply (owner_revoked _ i); [done|]. by exists g.
Qed.

(** ** Destroyed subjects stay destroyed *)

Lemma graves_subjects w w' : subjects w' = subjects w → graves w w'.
Proof. intros H o. unfold gone. by rewrite H. Qed.

Lemma gone_decr w o i :
  gone w o → gone (with_subjects (alter decr i (subjects w)) w) o.
Proof.
  unfold gone. cbn [subjects with_subjects]. rewrite fmap_count_decr.
  apply lookup_alter_pred_zero.
Qed.

Lemma gone_incr_live w o i b :
  subjects w !! i = Some b → use_count b ≠ 0%nat →
  gone w o → gone (with_subjects (alter incr i (subjects w)) w) o.
Proof.
  unfold gone. cbn [subjects with_subjects]. intros Hi Hb.
  rewrite !list_lookup_fmap. destruct (decide (i = o)) as [->|Hne].
  - rewrite Hi. by intros [= ?].
  - by rewrite list_lookup_alter_ne.
Qed.
End lifetimes.

#[global] Instance graves_preorder : PreOrder graves.
Proof.
  split.
  - by intros w o.
  - intros w1 w2 w3 H12 H23 o Ho. by apply H23, H12.
Qed.

Section graves_primitives.
Context {L : Layout}.
Lemma graves_lock_checker p : respects graves (lock_checker p).
Proof. prim; by apply graves_subjects. Qed.
Lemma graves_retain_checker p : respects graves (retain_checker p).
Proof. prim; by apply graves_subjects. Qed.
Lemma graves_release_checker p : respects graves (release_checker p).
Proof. prim; by apply graves_subjects. Qed.
Lemma graves_make_shared_checker c : respects graves (make_shared_checker c).
Proof. prim; by apply graves_subjects. Qed.
Lemma graves_checker_Called c self :
  respects graves (checker_CalledOnValidSequence c self).
Proof.
  unfold checker_CalledOnValidSequence. prim; by apply graves_subjects.
Qed.
Lemma graves_lock_flag p : respects graves (lock_flag p).
Proof. prim; by apply graves_subjects. Qed.
Lemma graves_retain_flag p : respects graves (retain_flag p).
Proof. prim; by apply graves_subjects. Qed.
Lemma graves_release_flag p : respects graves (release_flag p).
Proof. prim; by apply graves_subjects. Qed.
Lemma graves_make_shared_flag : respects graves make_shared_flag.
Proof. prim; by apply graves_subjects. Qed.
Lemma graves_flag_use_count p : respects graves (flag_use_count p).
Proof. prim; by apply graves_subjects. Qed.
Lemma graves_subject_get p : respects graves (subject_get p).
Proof. prim; by apply graves_subjects. Qed.
Lemma graves_dynamic_cast F T p : respects graves (dynamic_cast F T p).
Proof. unfold dynamic_cast. prim; by apply graves_subjects. Qed.
Lemma graves_owner_of_subject o : respects graves (owner_of_subject o).
Proof. unfold owner_of_subject. prim; by apply graves_subjects. Qed.
Lemma graves_factory i : respects graves (factory i).
Proof. unfold factory. prim; by apply graves_subjects. Qed.
Lemma graves_set_factory i f : respects graves (set_factory i f).
Proof. unfold set_factory. prim; by apply graves_subjects. Qed.
Lemma graves_modify_factories f :
  respects graves (modify (λ w, with_factories (f w) w)).
Proof. prim; by apply graves_subjects. Qed.

(** A temporary owner is taken of a living subject only. *)
Lemma graves_lock_subject p : respects graves (lock_subject p).
Proof.
  intros w sp w' H. unfold lock_subject, lock in H.
  destruct (live_block p (subjects w)) as [b|] eqn:Hl.
  - apply live_block_Some in Hl as (i & -> & Hi & Hb).
    injection H as <- <-. intros o. by apply (gone_incr_live _ _ _ b).
  - injection H as <- <-. by rewrite with_subjects_id.
Qed.
Lemma graves_release_subject p : respects graves (release_subject p).
Proof.
  prim. destruct p as [i|]; cbn [release].
  - intros o. apply gone_decr.
  - by rewrite with_subjects_id.
Qed.
Lemma graves_shared_from_this t : respects graves (shared_from_this t).
Proof.
  intros w sp w' H. unfold shared_from_this in H.
  destruct (object_at t w) as [[i b]|] eqn:Ho; [|done].
  apply object_at_Some in Ho as (Hi & Hb & _). injection H as <- <-.
  intros o. by apply (gone_incr_live _ _ _ b).
Qed.
Lemma graves_new_subject a c : respects graves (new_subject a c).
Proof.
  unfold new_subject, make_shared. prim. intros o. unfold gone.
  cbn [subjects with_subjects]. rewrite fmap_app. apply lookup_app_l_Some.
Qed.
(** An owner copies its pointer: the subject is alive. *)
Lemma graves_owner_retains o :
  respects graves (owner_of_subject o;; retain_subject (Some o)).
Proof.
  intros w u w' H. unfold owner_of_subject, retain_subject in H. munfold.
  destruct (live_block (Some o) (subjects w)) as [b|] eqn:Hl; [|done].
  apply live_block_Some in Hl as (i & [= <-] & Hi & Hb).
  simplify_eq. intros o'. by apply (gone_incr_live _ _ _ b).
Qed.
End graves_primitives.

Create HintDb graves_db.
#[global] Hint Resolve graves_lock_checker graves_retain_checker
  graves_release_checker graves_make_shared_checker graves_checker_Called
  graves_lock_flag graves_retain_flag graves_release_flag
  graves_make_shared_flag graves_flag_use_count graves_subject_get
  graves_dynamic_cast graves_owner_of_subject graves_factory
  graves_set_factory graves_modify_factories graves_lock_subject
  graves_release_subject graves_shared_from_this graves_new_subject
  : graves_db.

Section resurrection.
Context {L : Layout}.
Variables (DEBUG NDEBUG : bool).

Lemma graves_step e : respects graves (step DEBUG NDEBUG e).
Proof.
  destruct e; cbn [step]; try apply graves_owner_retains;
    unfold WeakPtrFactory_new, WeakPtrFactory_delete, GetWeakPtr,
      InvalidateWeakPtrs, HasWeakPtrs, Flag_HasRefs, WeakPtr_equal,
      WeakPtr_eq, WeakPtr_get, WeakPtr_void_get, WeakPtr_copy,
      WeakPtr_destroy, WeakPtr_convert, WeakPtr_erase, WeakPtr_from_void,
      WeakPtr_reset, WeakPtr_ctor, StaticAsWeakPtr, subject_lock_get,
      uintptr_cast;
    respects_all graves_db.
Qed.

Lemma graves_run es : respects graves (run DEBUG NDEBUG es).
Proof. apply respects_run; [apply _ | apply graves_step]. Qed.

Lemma gone_address h w o :
  WeakPtr.ptr_ h = Some o → gone w o → subject_address h w = nullptr.
Proof.
  unfold gone, subject_address, live_block. intros -> Ho.
  rewrite list_lookup_fmap in Ho.
  destruct (subjects w !! o) as [b|]; [|done]. injection Ho as Ho.
  by rewrite decide_True.
Qed.

(** X16.  No resurrection.  Once the subject of a handle has been destroyed,
    the handle resolves to empty whenever it resolves, whatever the program
    does afterwards: no later owner revives the control block, and a new
    subject allocated at the address of the old one is another object. *)
Theorem destroyed_subject_stays_empty (h : WeakPtr.t) (o : nat)
    (es : list event) (w w' : World) (self : nat) :
  WeakPtr.ptr_ h = Some o →
  gone w o →
  run DEBUG NDEBUG es w = Ok (tt, w') →
  WeakPtr_get NDEBUG h self w' = token_gate NDEBUG h self nullptr w'
  ∧ ∀ a w'', WeakPtr_get NDEBUG h self w' = Ok (a, w'') → a = nullptr.
Proof.
  intros Hp Ho Hr. apply graves_run in Hr. apply Hr in Ho.
  rewrite WeakPtr_get_gate, (gone_address _ _ _ Hp Ho). split; [done|].
  intros a w''. unfold token_gate.
  destruct (WeakPtr.threading_checker_ h); [|by intros [= <- _]].
  destruct (live_block _ _); [|by intros [= <- _]].
  destruct NDEBUG; [by intros [= <- _]|].
  destruct (CalledOnValidSequence _ _) as [[] ?]; [by intros [= <- _]|done].
Qed.
End resurrection.

(** X14, witness.  A factory built on sequence 7 with a checking token, never
    invalidated: its handle resolves to 16 on sequence 7 and is rejected on
    sequence 8. *)
Lemma first_generation_resolves_witness :
  ∃ w0 w1 h w3 w4,
    run true false [EvNewSubject 16 [1%nat]] empty_world = Ok (tt, w0)
    ∧ WeakPtrFactory_new [1%nat] Threading_mutex 16 7 w0 = Ok (0%nat, w1)
    ∧ GetWeakPtr true false 0 w1 = Ok (h, w3)
    ∧ run true false [EvHasWeakPtrs 0] w3 = Ok (tt, w4)
    ∧ WeakPtr_get false h 7 w4 = Ok (16, w4)
    ∧ WeakPtr_get false h 8 w4 = Fault AssertionFailed.
Proof.
  evaluate (run true false [EvNewSubject 16 [1%nat]] empty_world) as u w0.
  evaluate (WeakPtrFactory_new [1%nat] Threading_mutex 16 7 w0) as i w1.
  evaluate (GetWeakPtr true false 0 w1) as h w3.
  evaluate (run true false [EvHasWeakPtrs 0] w3) as u' w4.
  exists w0, w1, h, w3, w4.
  split; [reflexivity|]. split; [reflexivity|]. split; [reflexivity|].
  split; [reflexivity|]. split.
  - exact (first_generation_resolves true false
             [EvNewSubject 16 [1%nat]] w0 [1%nat] Threading_mutex 16 7 0%nat
             w1 [] w1 h w3 [EvHasWeakPtrs 0] w4 7%nat
             eq_refl eq_refl eq_refl eq_refl eq_refl eq_refl eq_refl).
  - exact (first_generation_resolves true false
             [EvNewSubject 16 [1%nat]] w0 [1%nat] Threading_mutex 16 7 0%nat
             w1 [] w1 h w3 [EvHasWeakPtrs 0] w4 8%nat
             eq_refl eq_refl eq_refl eq_refl eq_refl eq_refl eq_refl).
Defined.

(** X15, witness.  The factory of the subject at 16 is destroyed while the
    subject lives on: the handle resolves to empty. *)
Lemma destroyed_forever_witness :
  ∃ w0 h w1 w3,
    run true false [EvNewSubject 16 [1%nat];
                    EvNewFactory [1%nat] Threading_mutex 16 7] empty_world
    = Ok (tt, w0)
    ∧ GetWeakPtr true false 0 w0 = Ok (h, w1)
    ∧ WeakPtr_get false h 7 w1 = Ok (16, w1)
    ∧ WeakPtrFactory_delete 0 w1 = Ok (tt, w3)
    ∧ subject_address h w3 = 16
    ∧ WeakPtr_get false h 7 w3 = Ok (nullptr, w3).
Proof.
  evaluate (run true false [EvNewSubject 16 [1%nat];
                            EvNewFactory [1%nat] Threading_mutex 16 7]
              empty_world) as u w0.
  evaluate (GetWeakPtr true false 0 w0) as h w1.
  evaluate (WeakPtrFactory_delete 0 w1) as u' w3.
  exists w0, h, w1, w3.
  split; [reflexivity|]. split; [reflexivity|]. split; [reflexivity|].
  split; [reflexivity|]. split; [reflexivity|].
  exact (destroyed_forever true false
           [EvNewSubject 16 [1%nat]; EvNewFactory [1%nat] Threading_mutex 16 7]
           w0 0%nat h w1 [] w1 w3 [] w3 7%nat
           eq_refl eq_refl eq_refl eq_refl eq_refl).
Defined.

(** X16, witness.  The subject at 16 is destroyed and a new subject is
    allocated at 16: the old handle resolves to empty although an object
    lives at the address it was issued for. *)
Lemma destroyed_subject_stays_empty_witness :
  ∃ w0 h w1 w w',
    run false false [EvNewSubject 16 [1%nat];
                     EvNewFactory [1%nat] Threading_void 16 0] empty_world
    = Ok (tt, w0)
    ∧ GetWeakPtr false false 0 w0 = Ok (h, w1)
    ∧ run false false [EvReleaseSubject 0] w1 = Ok (tt, w)
    ∧ gone w 0
    ∧ run false false [EvNewSubject 16 [1%nat]] w = Ok (tt, w')
    ∧ object_at 16 w'
      = Some (1%nat, SharedBlock 1 {| obj_addr := 16; obj_class := [1%nat] |})
    ∧ WeakPtr_get false h 0 w' = Ok (nullptr, w').
Proof.
  evaluate (run false false [EvNewSubject 16 [1%nat];
                             EvNewFactory [1%nat] Threading_void 16 0]
              empty_world) as u w0.
  evaluate (GetWeakPtr false false 0 w0) as h w1.
  evaluate (run false false [EvReleaseSubject 0] w1) as u1 w.
  evaluate (run false false [EvNewSubject 16 [1%nat]] w) as u2 w'.
  exists w0, h, w1, w, w'.
  split; [reflexivity|]. split; [reflexivity|]. split; [reflexivity|].
  split; [reflexivity|]. split; [reflexivity|]. split; [reflexivity|].
  exact (proj1 (destroyed_subject_stays_empty false false h 0%nat
                  [EvNewSubject 16 [1%nat]] w w' 0%nat
                  eq_refl eq_refl eq_refl)).
Defined.

(** ** Erased handles as keys *)

(** X17.  The equality of erased handles agrees with their hash while the
    tokens are alive.  For two erased handles whose tokens are alive and
    accept the caller, [operator==], and with it [std::equal_to], answers
    whether the two hashes are equal; the subjects play no part, alive or
    not. *)
Theorem erased_eq_agrees_with_hash (NDEBUG : bool) (u v : WeakPtr.t)
    (self : nat) (w : World) (cu cv : nat)
    (tu tv : shared_block ThreadingChecker) :
  WeakPtr.threading_checker_ u = Some cu → checkers w !! cu = Some tu →
  use_count tu ≠ 0%nat →
  WeakPtr.threading_checker_ v = Some cv → checkers w !! cv = Some tv →
  use_count tv ≠ 0%nat →
  NDEBUG || fst (CalledOnValidSequence self (pointee tu)) = true →
  NDEBUG || fst (CalledOnValidSequence self (pointee tv)) = true →
  value (WeakPtr_void_eq NDEBUG u v self w)
  = Some (bool_decide (hash u = hash v)).
Proof.
  intros Hcu Htu Hnu Hcv Htv Hnv Hu Hv.
  assert (live_block (Some cu) (checkers w) = Some tu) as Hlu
    by (apply live_block_Some; by exists cu).
  assert (live_block (Some cv) (checkers w) = Some tv) as Hlv
    by (apply live_block_Some; by exists cv).
  unfold WeakPtr_void_eq. unfold bind at 1.
  rewrite WeakPtr_void_get_gate. unfold token_gate at 1. rewrite Hcu, Hlu.
  destruct NDEBUG.
  { unfold bind. rewrite WeakPtr_void_get_gate. unfold token_gate.
    by rewrite Hcv, Hlv. }
  cbn [orb] in Hu, Hv.
  destruct (CalledOnValidSequence self (pointee tu)) as [ok tu'] eqn:Hku.
  cbn [fst] in Hu. subst ok. unfold bind at 1.
  rewrite WeakPtr_void_get_gate. unfold token_gate.
  rewrite Hcv. cbn [checkers with_checkers].
  rewrite live_block_alter_store, Hlv. cbn [fmap option_fmap option_map].
  destruct (decide (Some cv = Some cu)) as [[= ->]|_].
  - cbn [pointee store]. by rewrite (check_again _ _ _ _ Hku eq_refl).
  - cbn [id].
    destruct (CalledOnValidSequence self (pointee tv)) as [ok tv'].
    cbn [fst] in Hv. by subst ok.
Qed.

(** X17, witness.  Two subjects, at 16 and 32, are destroyed while their
    factories live on.  The two handles resolve to empty, so that the typed
    [operator==] answers [true]; as erased keys they are different, as their
    hashes 16 and 32 are. *)
Lemma erased_eq_agrees_with_hash_witness :
  ∃ w0 h1 w1 h2 w2 w,
    run false false
      [EvNewSubject 16 [1%nat]; EvNewSubject 32 [1%nat];
       EvNewFactory [1%nat] Threading_void 16 0;
       EvNewFactory [1%nat] Threading_void 32 0] empty_world = Ok (tt, w0)
    ∧ GetWeakPtr false false 0 w0 = Ok (h1, w1)
    ∧ GetWeakPtr false false 1 w1 = Ok (h2, w2)
    ∧ run false false [EvReleaseSubject 0; EvReleaseSubject 1] w2 = Ok (tt, w)
    ∧ WeakPtr_eq false h1 h2 0 w = Ok (true, w)
    ∧ hash h1 = 16 ∧ hash h2 = 32
    ∧ value (WeakPtr_void_eq false h1 h2 0 w) = Some false.
Proof.
  evaluate (run false false
              [EvNewSubject 16 [1%nat]; EvNewSubject 32 [1%nat];
               EvNewFactory [1%nat] Threading_void 16 0;
               EvNewFactory [1%nat] Threading_void 32 0] empty_world) as u w0.
  evaluate (GetWeakPtr false false 0 w0) as h1 w1.
  evaluate (GetWeakPtr false false 1 w1) as h2 w2.
  evaluate (run false false [EvReleaseSubject 0; EvReleaseSubject 1] w2)
    as u' w.
  exists w0, h1, w1, h2, w2, w.
  split; [reflexivity|]. split; [reflexivity|]. split; [reflexivity|].
  split; [reflexivity|]. split; [reflexivity|]. split; [reflexivity|].
  split; [reflexivity|].
  apply (erased_eq_agrees_with_hash false h1 h2 0 w 0 1
           (SharedBlock 1 ThreadingChecker_void)
           (SharedBlock 1 ThreadingChecker_void));
    first [reflexivity | discriminate].
Defined.

Lemma void_get_dead NDEBUG h self w c :
  WeakPtr.threading_checker_ h = Some c → dead w c →
  WeakPtr_void_get NDEBUG h self w = Ok (nullptr, w).
Proof.
  intros Hc Hd. rewrite WeakPtr_void_get_gate. unfold token_gate.
  by rewrite Hc, (dead_live_block _ _ Hd).
Qed.

(** X18.  Once their tokens are destroyed, any two erased handles compare
    equal, whatever their hashes: the equality of keys changes under the
    container that holds them. *)
Theorem erased_eq_of_cut_off (NDEBUG : bool) (u v : WeakPtr.t) (self : nat)
    (w : World) (cu cv : nat) :
  WeakPtr.threading_checker_ u = Some cu → dead w cu →
  WeakPtr.threading_checker_ v = Some cv → dead w cv →
  WeakPtr_void_eq NDEBUG u v self w = Ok (true, w).
Proof.
  intros Hcu Hdu Hcv Hdv. unfold WeakPtr_void_eq, bind.
  by rewrite (void_get_dead _ _ _ _ _ Hcu Hdu), (void_get_dead _ _ _ _ _ Hcv Hdv).
Qed.

(** X18, witness.  Two handles, to the subjects at 16 and 32, of factories
    that were both invalidated: equal keys with different hashes. *)
Lemma erased_eq_of_cut_off_witness :
  ∃ w0 h1 w1 h2 w2 w,
    run false false
      [EvNewSubject 16 [1%nat]; EvNewSubject 32 [1%nat];
       EvNewFactory [1%nat] Threading_void 16 0;
       EvNewFactory [1%nat] Threading_void 32 0] empty_world = Ok (tt, w0)
    ∧ GetWeakPtr false false 0 w0 = Ok (h1, w1)
    ∧ GetWeakPtr false false 1 w1 = Ok (h2, w2)
    ∧ WeakPtr_void_eq false h1 h2 0 w2 = Ok (false, w2)
    ∧ run false false [EvInvalidateWeakPtrs 0 0; EvInvalidateWeakPtrs 1 0] w2
      = Ok (tt, w)
    ∧ WeakPtr_void_eq false h1 h2 0 w = Ok (true, w)
    ∧ hash h1 = 16 ∧ hash h2 = 32.
Proof.
  evaluate (run false false
              [EvNewSubject 16 [1%nat]; EvNewSubject 32 [1%nat];
               EvNewFactory [1%nat] Threading_void 16 0;
               EvNewFactory [1%nat] Threading_void 32 0] empty_world) as u w0.
  evaluate (GetWeakPtr false false 0 w0) as h1 w1.
  evaluate (GetWeakPtr false false 1 w1) as h2 w2.
  evaluate (run false false
              [EvInvalidateWeakPtrs 0 0; EvInvalidateWeakPtrs 1 0] w2) as u' w.
  exists w0, h1, w1, h2, w2, w.
  split; [reflexivity|]. split; [reflexivity|]. split; [reflexivity|].
  split; [reflexivity|]. split; [reflexivity|]. split; [|split; reflexivity].
  apply (erased_eq_of_cut_off false h1 h2 0 w 0 1); reflexivity.
Defined.

(** ** The flag *)

(** X19.  [HasWeakPtrs] answers whether the flag of the factory is alive, not
    whether anyone shares it: the count that [HasRefs] compares with 1
    includes the owner it has just taken.  The answer is the same however
    many handles hold the flag, and the call leaves every count as it found
    it. *)
Theorem HasWeakPtrs_is_flag_alive (i : nat) (f : WeakPtrFactory.t) (w : World) :
  factories w !! i = Some (Some f) →
  HasWeakPtrs i w
  = Ok (negb (expired (WeakPtrFactory.ref_ f) (flags w)), w).
Proof.
  intros Hf. unfold HasWeakPtrs, factory. unfold bind. rewrite Hf.
  apply Flag_HasRefs_expired.
Qed.

(** X19, witness.  A factory whose only handle has been destroyed still
    answers [true]. *)
Lemma HasWeakPtrs_is_flag_alive_witness :
  ∃ w0 h w1 w2,
    run false false [EvNewSubject 16 [1%nat];
                     EvNewFactory [1%nat] Threading_void 16 0] empty_world
    = Ok (tt, w0)
    ∧ GetWeakPtr false false 0 w0 = Ok (h, w1)
    ∧ WeakPtr_destroy h w1 = Ok (tt, w2)
    ∧ HasWeakPtrs 0 w2 = Ok (true, w2).
Proof.
  evaluate (run false false [EvNewSubject 16 [1%nat];
                             EvNewFactory [1%nat] Threading_void 16 0]
              empty_world) as u w0.
  evaluate (GetWeakPtr false false 0 w0) as h w1.
  evaluate (WeakPtr_destroy h w1) as u' w2.
  exists w0, h, w1, w2.
  split; [reflexivity|]. split; [reflexivity|]. split; [reflexivity|].
  exact (HasWeakPtrs_is_flag_alive 0
           (WeakPtrFactory.mk [1%nat] Threading_void 0 (Some 0%nat) 16) w2
           eq_refl).
Defined.

(** ** Assignment *)

Lemma uintptr_cast_with_flags {L : Layout} F T p fl w :
  uintptr_cast F T p (with_flags fl w)
  = match uintptr_cast F T p w with
    | Ok (r, w') => Ok (r, with_flags fl w')
    | Fault e => Fault e
    end.
Proof.
  destruct F as [|F], T as [|T]; unfold uintptr_cast, ret; try done.
  destruct (is_same F T); [done|]. unfold dynamic_cast.
  destruct (decide (p = nullptr)); [done|].
  destruct (is_base_of T F); [done|]. rewrite subobject_at_with_flags.
  by destruct (subobject_at F p w) as [[o b]|].
Qed.

(** X20.  Assignment between handles of class types is the conversion of
    the right-hand side followed by the destruction of the old value of the
    left-hand side: same handle, same world, same failure.  Assigning a
    handle to itself changes nothing. *)
Theorem WeakPtr_assign_is_convert {L : Layout} (U T : class) (this other : WeakPtr.t)
    (w : World) :
  WeakPtr_assign U T this other w
  = (h ← WeakPtr_convert U T other; WeakPtr_destroy this;; ret h) w
  ∧ WeakPtr_assign T T this this w = Ok (this, w).
Proof.
  split.
  - unfold WeakPtr_assign, WeakPtr_convert, WeakPtr_destroy.
    destruct (is_base_of T U); [|done].
    unfold retain_flag, release_flag, modify, bind, ret.
    rewrite uintptr_cast_with_flags. cbn [flags with_flags].
    destruct (uintptr_cast _ _ _ _) as [[raw w1]|] eqn:Hc; [|done].
    apply uintptr_cast_result in Hc as ->. by cbn [flags with_flags].
  - unfold WeakPtr_assign, is_base_of. rewrite bool_decide_eq_true_2 by done.
    unfold retain_flag, release_flag, modify, bind, ret.
    rewrite uintptr_cast_same, upcast_same. cbn [flags with_flags].
    rewrite release_retain. by destruct this, w.
Qed.

(** ** Comparison is symmetric *)

Lemma subject_address_checkers h l w :
  subject_address h (with_checkers l w) = subject_address h w.
Proof. reflexivity. Qed.

Lemma alter_alter_ne {A} (f g : A → A) (i j : nat) (l : list A) :
  i ≠ j → alter f i (alter g j l) = alter g j (alter f i l).
Proof.
  intros Hne. apply list_eq. intros k.
  destruct (decide (k = i)) as [Hi|Hi]; destruct (decide (k = j)) as [Hj|Hj];
    subst; try done.
  - by rewrite list_lookup_alter_eq, !list_lookup_alter_ne,
      list_lookup_alter_eq by done.
  - by rewrite list_lookup_alter_ne, !list_lookup_alter_eq,
      list_lookup_alter_ne by done.
  - by rewrite !list_lookup_alter_ne by done.
Qed.

(** X21.  [operator==] is symmetric, in its answer, in the sequences it
    records in the tokens, and in where it aborts. *)
Theorem WeakPtr_eq_symmetric (NDEBUG : bool) (a b : WeakPtr.t) (self : nat)
    (w : World) :
  WeakPtr_eq NDEBUG a b self w = WeakPtr_eq NDEBUG b a self w.
Proof.
  assert (∀ x y : uintptr_t, bool_decide (x = y) = bool_decide (y = x)) as Hsym
    by (intros; by apply bool_decide_ext).
  unfold WeakPtr_eq, bind.
  rewrite (WeakPtr_get_gate NDEBUG a self w), (WeakPtr_get_gate NDEBUG b self w).
  unfold token_gate.
  destruct (WeakPtr.threading_checker_ a) as [ca|] eqn:Hca;
    destruct (WeakPtr.threading_checker_ b) as [cb|] eqn:Hcb;
    repeat match goal with
      | |- context [live_block (Some ?c) (checkers w)] =>
          let t := fresh "t" in let H := fresh "Hl" in
          destruct (live_block (Some c) (checkers w)) as [t|] eqn:H
      end;
    destruct NDEBUG;
    repeat match goal with
      | |- context [CalledOnValidSequence self (pointee ?t)] =>
          let ok := fresh "ok" in let t' := fresh "t'" in let H := fresh "Hk" in
          destruct (CalledOnValidSequence self (pointee t)) as [ok t'] eqn:H;
          destruct ok
      end;
    rewrite ?WeakPtr_get_gate; unfold token_gate;
    rewrite ?Hca, ?Hcb; cbn [checkers with_checkers];
    rewrite ?live_block_alter_store, ?Hl, ?Hl0;
    rewrite ?subject_address_checkers;
    try (by rewrite Hsym).
  all: repeat match goal with
       | |- context [decide (Some ?x = Some ?y)] =>
           destruct (decide (Some x = Some y)) as [?|?]
       end; simplify_eq; cbn [fmap option_fmap option_map id pointee store];
    rewrite ?Hk, ?Hk0,
      ?(check_again _ _ _ _ Hk eq_refl), ?(check_again _ _ _ _ Hk0 eq_refl);
    unfold ret; rewrite ?alter_store_store; try done; try (by rewrite Hsym).
  all: try congruence.
  all: rewrite Hsym; try congruence.
  unfold with_checkers. cbn [checkers flags subjects factories].
  rewrite (alter_alter_ne _ _ cb ca); [done | congruence].
Qed.
